(** * Fractional knapsack for relief allocation: model and properties

    Shallow embedding of [project.py]: the [ReliefItem] and [Allocation]
    dataclasses, the [FractionalKnapsack] solver with its [solve] method,
    [validate_input], [get_user_input] and one round of [run_test_cases].

    Numbers.  Python's [float] is IEEE 754 binary64, and so is Rocq's
    primitive [float]: every arithmetic operation of the source is the
    operation of the same name on [float], with its rounding, and every
    comparison is the comparison of the source ([a <= b] is [a <=? b],
    [a > b] is [b <? a]), which is false as soon as an operand is NaN.

    The fields and the capacity are annotated [float] in the source; where
    its test cases and its demo write integer literals, they are read here
    as the floats of the same value, on which the operations of the source
    give the same results.

    Besides the embedding, the module [Exact] holds the same algorithm over
    exact rationals.  It is what the run reduces to when no operation
    rounds; the section on exact runs says when that is the case and
    carries the properties of exact arithmetic over to such runs.

    Exceptions.  A constructor that may raise returns [PyError + T]. *)

From Stdlib Require Import QArith Qminmax Lqa Lia ZArith List String Permutation.
From Stdlib Require Import Floats Uint63 DecimalString.
From stdpp Require Import gmap.
Import ListNotations.

Set Warnings "-inexact-float".

Local Open Scope list_scope.
Local Open Scope float_scope.

(** ** Data model *)

Inductive PyError : Type :=
| ValueError (msg : string).

(** [@dataclass class ReliefItem]: name, value (urgency score), weight. *)
Record ReliefItem : Type := mkReliefItem {
  name : string;
  value : float;
  weight : float
}.

(** The generated [__init__] stores the three fields and then runs
    [__post_init__], which checks the weight first and the value second. *)
Definition ReliefItem_init (n : string) (v w : float) : PyError + ReliefItem :=
  if w <=? 0 then
    inl (ValueError (String.append "Weight must be positive for " n))
  else if v <=? 0 then
    inl (ValueError (String.append "Value must be positive for " n))
  else inr (mkReliefItem n v w).

(** [ReliefItem.ratio] (a property, recomputed on every read). *)
Definition ratio (it : ReliefItem) : float := value it / weight it.

(** An item is validly constructed when the constructor returns it. *)
Definition valid_item (it : ReliefItem) : Prop :=
  ReliefItem_init (name it) (value it) (weight it) = inr it.

(** [@dataclass class Allocation]. *)
Record Allocation : Type := mkAllocation {
  alloc_name : string;
  weight_allocated : float;
  fraction : float;
  value_gained : float;
  alloc_ratio : float
}.

(** The dictionaries appended to [unallocated], with their five fixed keys
    ['name'], ['weight'], ['value'], ['ratio'], ['fraction_unallocated']. *)
Record UnallocatedPortion : Type := mkUnallocated {
  un_name : string;
  un_weight : float;
  un_value : float;
  un_ratio : float;
  fraction_unallocated : float
}.

(** [class FractionalKnapsack]: the only attribute is [capacity]. *)
Record FractionalKnapsack : Type := mkFractionalKnapsack {
  capacity : float
}.

Definition FractionalKnapsack_init (c : float) : PyError + FractionalKnapsack :=
  if c <=? 0 then inl (ValueError "Capacity must be positive")
  else inr (mkFractionalKnapsack c).

(** ** [sorted(items, key=..., reverse=True)]

    Python's [sorted] is stable, and with [reverse=True] it orders by
    descending key while elements with equal keys keep their input order.
    On keys that the comparison orders that output is unique; it is
    computed here by insertion, each element being placed in front of the
    already ordered elements that follow it in the input, after those whose
    key is strictly greater.  The order [le] of the keys is a parameter:
    [<=?] on [float] for the source.

    A NaN key compares false with every key, and the order in which
    [sorted] then leaves the elements depends on the comparisons it happens
    to make; that order is not modelled.  What is stated about the order of
    the output is stated for ratios that are not NaN; the result of
    insertion is a permutation of the input in every case. *)
Section Sorted.

Context {A K : Type} (le : K -> K -> bool) (key : A -> K).

Fixpoint insert_desc (x : A) (l : list A) : list A :=
  match l with
  | [] => [x]
  | y :: l' =>
      if le (key y) (key x) then x :: y :: l'
      else y :: insert_desc x l'
  end.

Definition sorted_reverse (l : list A) : list A :=
  fold_right insert_desc [] l.

End Sorted.

(** ** The body of [solve] *)

(** The four local variables the loop updates. *)
Record LoopState : Type := mkLoopState {
  total_value : float;
  allocations : list Allocation;
  unallocated : list UnallocatedPortion;
  remaining_capacity : float
}.

(** One iteration of [for item in sorted_items]. *)
Definition loop_body (st : LoopState) (item : ReliefItem) : LoopState :=
  if remaining_capacity st <=? 0 then
    (* item completely unallocated; [continue] *)
    mkLoopState (total_value st) (allocations st)
      (unallocated st ++
         [mkUnallocated (name item) (weight item) (value item) (ratio item) 1])
      (remaining_capacity st)
  else if weight item <=? remaining_capacity st then
    (* take the full item *)
    let allocation :=
      mkAllocation (name item) (weight item) 1 (value item) (ratio item) in
    mkLoopState (total_value st + value item)
      (allocations st ++ [allocation])
      (unallocated st)
      (remaining_capacity st - weight item)
  else
    (* take a fraction of the item *)
    let fraction := remaining_capacity st / weight item in
    let value_gained := value item * fraction in
    let allocation :=
      mkAllocation (name item) (remaining_capacity st) fraction value_gained
        (ratio item) in
    mkLoopState (total_value st + value_gained)
      (allocations st ++ [allocation])
      (unallocated st ++
         [mkUnallocated (name item) (weight item * (1 - fraction))
            (value item * (1 - fraction)) (ratio item) (1 - fraction)])
      0.

Definition run_loop (st : LoopState) (l : list ReliefItem) : LoopState :=
  fold_left loop_body l st.

Definition SolveResult : Type :=
  float * list Allocation * list UnallocatedPortion.

(** [FractionalKnapsack.solve]. *)
Definition solve (self : FractionalKnapsack) (items : list ReliefItem)
  : SolveResult :=
  match items with
  | [] => (0, [], [])
  | _ :: _ =>
      let sorted_items := sorted_reverse PrimFloat.leb ratio items in
      let st := run_loop (mkLoopState 0 [] [] (capacity self)) sorted_items in
      (total_value st, allocations st, unallocated st)
  end.

Definition res_total (r : SolveResult) : float := fst (fst r).
Definition res_allocations (r : SolveResult) : list Allocation := snd (fst r).
Definition res_unallocated (r : SolveResult) : list UnallocatedPortion := snd r.

(** The sum of a list of floats as a running total computes it: added from
    left to right, starting at 0, every addition rounded.  It is the order
    of [total_value += ...] in the loop, and of [sum] on a list until its
    compensated summation of Python 3.12. *)
Definition py_sum (l : list float) : float := fold_left PrimFloat.add l 0.

(** The records the three branches of the loop build, by branch. *)
Definition full_alloc (it : ReliefItem) : Allocation :=
  mkAllocation (name it) (weight it) 1 (value it) (ratio it).

Definition partial_alloc (rem : float) (it : ReliefItem) : Allocation :=
  mkAllocation (name it) rem (rem / weight it)
    (value it * (rem / weight it)) (ratio it).

Definition partial_unalloc (rem : float) (it : ReliefItem) : UnallocatedPortion :=
  mkUnallocated (name it) (weight it * (1 - rem / weight it))
    (value it * (1 - rem / weight it)) (ratio it) (1 - rem / weight it).

Definition skipped_unalloc (it : ReliefItem) : UnallocatedPortion :=
  mkUnallocated (name it) (weight it) (value it) (ratio it) 1.

(** ** [run_test_cases]

    One round of the loop over [test_cases]: the solver is constructed
    inside [try], any exception is reported as an error, and a total within
    0.01 of the expected value passes. *)
Inductive TestOutcome : Type :=
| PASS
| FAIL
| ERROR (e : PyError).

Definition run_test_case (items : list ReliefItem)
    (capacity expected_value : float) : TestOutcome :=
  match FractionalKnapsack_init capacity with
  | inl e => ERROR e
  | inr solver =>
      let total_value := res_total (solve solver items) in
      if abs (total_value - expected_value) <? 0.01 then PASS else FAIL
  end.

(** ** [solve] on the object store

    Python passes the item list and the items by reference.  Here the store
    maps object identities to the objects a caller can reach: the item
    objects and the list objects holding references to them.  [solve] reads
    the caller's list, lets [sorted] build a new list object (the only
    object it adds to the store), and iterates over that new list reading
    the items' attributes.  The allocation records, the dictionaries and the
    two result lists are new objects as well; they are returned by value. *)

Definition loc : Type := positive.

Inductive PyObj : Type :=
| ItemObj (it : ReliefItem)
| ListObj (refs : list loc).

Definition get_list (h : gmap loc PyObj) (l : loc) : option (list loc) :=
  match h !! l with
  | Some (ListObj refs) => Some refs
  | _ => None
  end.

Definition get_item (h : gmap loc PyObj) (l : loc) : option ReliefItem :=
  match h !! l with
  | Some (ItemObj it) => Some it
  | _ => None
  end.

(** The items a list of references denotes. *)
Fixpoint read_items (h : gmap loc PyObj) (refs : list loc)
  : option (list ReliefItem) :=
  match refs with
  | [] => Some []
  | r :: refs' =>
      match get_item h r, read_items h refs' with
      | Some it, Some its => Some (it :: its)
      | _, _ => None
      end
  end.

(** [sorted(items, key=lambda x: x.ratio, reverse=True)]: the key of every
    element is read first, the references are ordered by these keys, and the
    result is stored in a new list object. *)
Fixpoint read_keys (h : gmap loc PyObj) (refs : list loc)
  : option (list (loc * float)) :=
  match refs with
  | [] => Some []
  | r :: refs' =>
      match get_item h r, read_keys h refs' with
      | Some it, Some ks => Some ((r, ratio it) :: ks)
      | _, _ => None
      end
  end.

Definition sorted_heap (h : gmap loc PyObj) (refs : list loc)
  : option (loc * gmap loc PyObj) :=
  match read_keys h refs with
  | Some keyed =>
      let new := fresh (dom h) in
      Some (new,
            <[new := ListObj (map fst (sorted_reverse PrimFloat.leb snd keyed))]> h)
  | None => None
  end.

(** [for item in sorted_items: ...], reading each item through the store. *)
Fixpoint run_loop_heap (h : gmap loc PyObj) (st : LoopState) (refs : list loc)
  : option LoopState :=
  match refs with
  | [] => Some st
  | r :: refs' =>
      match get_item h r with
      | Some item => run_loop_heap h (loop_body st item) refs'
      | None => None
      end
  end.

Definition solve_heap (self : FractionalKnapsack) (items : loc)
    (h : gmap loc PyObj) : option (SolveResult * gmap loc PyObj) :=
  match get_list h items with
  | None => None
  | Some [] => Some ((0, [], []), h)
  | Some refs =>
      match sorted_heap h refs with
      | None => None
      | Some (sorted_items, h1) =>
          match get_list h1 sorted_items with
          | None => None
          | Some srefs =>
              match run_loop_heap h1 (mkLoopState 0 [] [] (capacity self)) srefs with
              | None => None
              | Some st =>
                  Some ((total_value st, allocations st, unallocated st), h1)
              end
          end
      end
  end.

(** [denotes h ps]: every reference of [ps] is an item object of [h] holding
    the item it is paired with. *)
Definition denotes (h : gmap loc PyObj) (ps : list (loc * ReliefItem)) : Prop :=
  Forall (fun p => get_item h (fst p) = Some (snd p)) ps.

(** ** [validate_input]

    What the source takes from Python is taken as a parameter here:
    [value_type] is the conversion it is called with ([float] or [int] on a
    string, raising [ValueError] when the text is not a number), [le] and
    [lt] are Python's [<=] and [<] on the converted values and the bounds
    ([<=?] and [<?] on [float], which are false on NaN), and [str_of] is the
    text an f-string gives for a bound. *)
Section ValidateInput.

Context {N : Type} (le lt : N -> N -> bool) (str_of : N -> string).

(** The body of the [try]. *)
Definition validate_input_try (value : string)
    (value_type : string -> PyError + N) (min_val : N) (max_val : option N)
    (field_name : string) : PyError + N :=
  match value_type value with
  | inl e => inl e
  | inr val =>
      if le val min_val then
        inl (ValueError (String.append field_name
               (String.append " must be greater than " (str_of min_val))))
      else
        match max_val with
        | Some m =>
            if lt m val then
              inl (ValueError (String.append field_name
                     (String.append " must be at most " (str_of m))))
            else inr val
        | None => inr val
        end
  end.

(** [try: ... except (ValueError, TypeError) as e: raise ValueError(...)]. *)
Definition validate_input (value : string)
    (value_type : string -> PyError + N) (min_val : N) (max_val : option N)
    (field_name : string) : PyError + N :=
  match validate_input_try value value_type min_val max_val field_name with
  | inl (ValueError msg) =>
      inl (ValueError (String.append "Invalid "
             (String.append field_name (String.append ": " msg))))
  | inr val => inr val
  end.

End ValidateInput.

(** ** [get_user_input]

    The console is the lines still to be read and what has been written so
    far.  [input] writes its prompt and takes the next line, raising
    [EOFError] when there is none.  Every [print] is recorded by what it
    reports, not by its text.  Interrupts from the keyboard are not part of
    the model. *)
Inductive Prompt : Type :=
| PromptCapacity
| PromptCount
| PromptConfirm (num_items : Z)
| PromptName
| PromptValue
| PromptWeight.

Inductive Output : Type :=
| OutBanner
| OutPrompt (p : Prompt)
| OutItemHeader (i : nat)
| OutDuplicate (nm : string)
| OutCancelled
| OutError (e : PyError).

Record Console : Type := mkConsole {
  stdin : list string;
  stdout : list Output
}.

(** How a piece of the script ends: normally, by an exception, or by
    [exit]. *)
Inductive Result (A : Type) : Type :=
| Ok (a : A)
| Raise (e : PyError)
| SystemExit (code : Z)
| EOFError.

Arguments Ok {A} a.
Arguments Raise {A} e.
Arguments SystemExit {A} code.
Arguments EOFError {A}.

Definition IO (A : Type) : Type := Console -> Result A * Console.

Definition io_ret {A} (a : A) : IO A := fun k => (Ok a, k).

Definition io_bind {A B} (m : IO A) (f : A -> IO B) : IO B :=
  fun k =>
    match m k with
    | (Ok a, k') => f a k'
    | (Raise e, k') => (Raise e, k')
    | (SystemExit code, k') => (SystemExit code, k')
    | (EOFError, k') => (EOFError, k')
    end.

Notation "'let!' x ':=' m 'in' f" := (io_bind m (fun x => f))
  (at level 10, x name, m at level 100, f at level 200).
Notation "'do!' m 'in' f" := (io_bind m (fun _ => f))
  (at level 10, m at level 100, f at level 200).

Definition print (o : Output) : IO unit :=
  fun k => (Ok tt, mkConsole (stdin k) (stdout k ++ [o])).

Definition input (p : Prompt) : IO string :=
  fun k =>
    let k' := mkConsole (stdin k) (stdout k ++ [OutPrompt p]) in
    match stdin k with
    | [] => (EOFError, k')
    | line :: rest => (Ok line, mkConsole rest (stdout k'))
    end.

Definition exit {A} (code : Z) : IO A := fun k => (SystemExit code, k).

(** A call that may raise, in statement position. *)
Definition lift {A} (r : PyError + A) : IO A :=
  fun k => match r with inl e => (Raise e, k) | inr a => (Ok a, k) end.

(** [try: body except ValueError as e: handler(e)]. *)
Definition try_except {A} (body : IO A) (handler : PyError -> IO A) : IO A :=
  fun k =>
    match body k with
    | (Raise e, k') => handler e k'
    | other => other
    end.

Section GetUserInput.

Context (py_float : string -> PyError + float) (py_int : string -> PyError + Z)
        (str_of : float -> string) (str_of_int : Z -> string)
        (strip lower : string -> string).

(** One round of [for i in range(num_items)], [items] being the list built
    so far; the round ends with [items.append]. *)
Definition read_item (i : nat) (items : list ReliefItem)
  : IO (list ReliefItem) :=
  do! print (OutItemHeader i) in
  let! name_input := input PromptName in
  let nm := strip name_input in
  do! (if String.eqb nm EmptyString
       then lift (inl (ValueError "Item name cannot be empty"))
       else io_ret tt) in
  do! (if existsb (fun item => String.eqb (lower (name item)) (lower nm)) items
       then print (OutDuplicate nm) else io_ret tt) in
  let! value_input := input PromptValue in
  let! v := lift (validate_input PrimFloat.leb PrimFloat.ltb str_of
                    value_input py_float 0 (Some 100) "Urgency score") in
  let! weight_input := input PromptWeight in
  let! w := lift (validate_input PrimFloat.leb PrimFloat.ltb str_of
                    weight_input py_float 0 None "Weight") in
  let! item := lift (ReliefItem_init nm v w) in
  io_ret (items ++ [item]).

(** The rounds [i, i+1, ..., i+n-1] of the loop. *)
Fixpoint read_items_from (n i : nat) (items : list ReliefItem)
  : IO (list ReliefItem) :=
  match n with
  | O => io_ret items
  | S n' =>
      let! items' := read_item i items in read_items_from n' (S i) items'
  end.

Definition get_user_input : IO (list ReliefItem * float) :=
  do! print OutBanner in
  try_except
    (let! capacity_input := input PromptCapacity in
     let! capacity := lift (validate_input PrimFloat.leb PrimFloat.ltb str_of
                              capacity_input py_float 0 None "Capacity") in
     let! num_input := input PromptCount in
     let! num_items := lift (validate_input Z.leb Z.ltb str_of_int
                               num_input py_int 0%Z None "Number of items") in
     do! (if (100 <? num_items)%Z then
            let! confirm := input (PromptConfirm num_items) in
            if negb (String.eqb (lower confirm) "y")
            then do! print OutCancelled in exit 0
            else io_ret tt
          else io_ret tt) in
     let! items := read_items_from (Z.to_nat num_items) 0 [] in
     io_ret (items, capacity))
    (fun e => do! print (OutError e) in exit 1).

End GetUserInput.

(** * The algorithm over exact rationals

    The definitions of this module are those of the embedding with [Q] in
    the place of [float]: the same fields, the same tests in the same
    order, the same operations, none of which rounds.  They are not the
    source's arithmetic; they say what the source computes on the runs in
    which no operation rounds. *)
Module Exact.

Local Open Scope Q_scope.


(** [@dataclass class ReliefItem]: name, value (urgency score), weight. *)
Record ReliefItem : Type := mkReliefItem {
  name : string;
  value : Q;
  weight : Q
}.

(** The generated [__init__] stores the three fields and then runs
    [__post_init__], which checks the weight first and the value second. *)
Definition ReliefItem_init (n : string) (v w : Q) : PyError + ReliefItem :=
  if Qle_bool w 0 then
    inl (ValueError (String.append "Weight must be positive for " n))
  else if Qle_bool v 0 then
    inl (ValueError (String.append "Value must be positive for " n))
  else inr (mkReliefItem n v w).

(** [ReliefItem.ratio] (a property, recomputed on every read). *)
Definition ratio (it : ReliefItem) : Q := value it / weight it.

(** An item is validly constructed when the constructor returns it. *)
Definition valid_item (it : ReliefItem) : Prop :=
  ReliefItem_init (name it) (value it) (weight it) = inr it.

(** [@dataclass class Allocation]. *)
Record Allocation : Type := mkAllocation {
  alloc_name : string;
  weight_allocated : Q;
  fraction : Q;
  value_gained : Q;
  alloc_ratio : Q
}.

(** The dictionaries appended to [unallocated], with their five fixed keys
    ['name'], ['weight'], ['value'], ['ratio'], ['fraction_unallocated']. *)
Record UnallocatedPortion : Type := mkUnallocated {
  un_name : string;
  un_weight : Q;
  un_value : Q;
  un_ratio : Q;
  fraction_unallocated : Q
}.

(** [class FractionalKnapsack]: the only attribute is [capacity]. *)
Record FractionalKnapsack : Type := mkFractionalKnapsack {
  capacity : Q
}.

Definition FractionalKnapsack_init (c : Q) : PyError + FractionalKnapsack :=
  if Qle_bool c 0 then inl (ValueError "Capacity must be positive")
  else inr (mkFractionalKnapsack c).

(** The four local variables the loop updates. *)
Record LoopState : Type := mkLoopState {
  total_value : Q;
  allocations : list Allocation;
  unallocated : list UnallocatedPortion;
  remaining_capacity : Q
}.

(** One iteration of [for item in sorted_items]. *)
Definition loop_body (st : LoopState) (item : ReliefItem) : LoopState :=
  if Qle_bool (remaining_capacity st) 0 then
    (* item completely unallocated; [continue] *)
    mkLoopState (total_value st) (allocations st)
      (unallocated st ++
         [mkUnallocated (name item) (weight item) (value item) (ratio item) 1])
      (remaining_capacity st)
  else if Qle_bool (weight item) (remaining_capacity st) then
    (* take the full item *)
    let allocation :=
      mkAllocation (name item) (weight item) 1 (value item) (ratio item) in
    mkLoopState (total_value st + value item)
      (allocations st ++ [allocation])
      (unallocated st)
      (remaining_capacity st - weight item)
  else
    (* take a fraction of the item *)
    let fraction := remaining_capacity st / weight item in
    let value_gained := value item * fraction in
    let allocation :=
      mkAllocation (name item) (remaining_capacity st) fraction value_gained
        (ratio item) in
    mkLoopState (total_value st + value_gained)
      (allocations st ++ [allocation])
      (unallocated st ++
         [mkUnallocated (name item) (weight item * (1 - fraction))
            (value item * (1 - fraction)) (ratio item) (1 - fraction)])
      0.

Definition run_loop (st : LoopState) (l : list ReliefItem) : LoopState :=
  fold_left loop_body l st.

Definition SolveResult : Type :=
  Q * list Allocation * list UnallocatedPortion.

(** [FractionalKnapsack.solve]. *)
Definition solve (self : FractionalKnapsack) (items : list ReliefItem)
  : SolveResult :=
  match items with
  | [] => (0, [], [])
  | _ :: _ =>
      let sorted_items := sorted_reverse Qle_bool ratio items in
      let st := run_loop (mkLoopState 0 [] [] (capacity self)) sorted_items in
      (total_value st, allocations st, unallocated st)
  end.

Definition res_total (r : SolveResult) : Q := fst (fst r).
Definition res_allocations (r : SolveResult) : list Allocation := snd (fst r).
Definition res_unallocated (r : SolveResult) : list UnallocatedPortion := snd r.

(** The sum of a list of rationals, from left to right starting at 0. *)
Definition py_sum (l : list Q) : Q := fold_left Qplus l 0.

(** The records the three branches of the loop build, by branch. *)
Definition full_alloc (it : ReliefItem) : Allocation :=
  mkAllocation (name it) (weight it) 1 (value it) (ratio it).

Definition partial_alloc (rem : Q) (it : ReliefItem) : Allocation :=
  mkAllocation (name it) rem (rem / weight it)
    (value it * (rem / weight it)) (ratio it).

Definition partial_unalloc (rem : Q) (it : ReliefItem) : UnallocatedPortion :=
  mkUnallocated (name it) (weight it * (1 - rem / weight it))
    (value it * (1 - rem / weight it)) (ratio it) (1 - rem / weight it).

Definition skipped_unalloc (it : ReliefItem) : UnallocatedPortion :=
  mkUnallocated (name it) (weight it) (value it) (ratio it) 1.


Definition item_A : ReliefItem := mkReliefItem "A" 60 10.
Definition item_B : ReliefItem := mkReliefItem "B" 100 20.
Definition item_C : ReliefItem := mkReliefItem "C" 120 30.

(** What one run of the loop over [l] has done, stated on the list itself:
    a prefix [full] taken whole, then at most one item [part] taken in part,
    then a suffix [skipped]. [rem] is the capacity left after [full]. *)
Record LoopSplit (st : LoopState) (l : list ReliefItem)
    (full part skipped : list ReliefItem) (rem : Q) : Prop := {
  split_list : l = full ++ part ++ skipped;
  split_part_le1 : (length part <= 1)%nat;
  split_rem : rem == remaining_capacity st - py_sum (map weight full);
  split_rem_nonneg : 0 <= rem;
  split_part_fits : Forall (fun it => 0 < rem /\ rem < weight it) part;
  split_skipped : part = [] -> skipped <> [] -> rem <= 0;
  split_allocations :
    allocations (run_loop st l) =
      allocations st ++ map full_alloc full ++ map (partial_alloc rem) part;
  split_unallocated :
    unallocated (run_loop st l) =
      unallocated st ++ map (partial_unalloc rem) part
        ++ map skipped_unalloc skipped;
  split_total :
    total_value (run_loop st l) ==
      total_value st + py_sum (map value full)
        + py_sum (map (fun it => value_gained (partial_alloc rem it)) part)
}.

(** Fractional assignments: one fraction per input item, in input order. *)
Definition weighted_sum (f : ReliefItem -> Q) (items : list ReliefItem)
    (xs : list Q) : Q :=
  py_sum (map (fun p => snd p * f (fst p)) (combine items xs)).

Definition assignment_weight := weighted_sum weight.
Definition assignment_value := weighted_sum value.

Definition feasible (c : Q) (items : list ReliefItem) (xs : list Q) : Prop :=
  length xs = length items /\
  Forall (fun x => 0 <= x /\ x <= 1) xs /\
  assignment_weight items xs <= c.

(** The value the loop adds when it starts on [l] with capacity [c] left. *)
Fixpoint greedy (c : Q) (l : list ReliefItem) : Q :=
  match l with
  | [] => 0
  | it :: l' =>
      if Qle_bool c 0 then 0
      else if Qle_bool (weight it) c then value it + greedy (c - weight it) l'
      else value it * (c / weight it)
  end.

(** The fractions the loop takes. *)
Fixpoint greedy_fractions (c : Q) (l : list ReliefItem) : list Q :=
  match l with
  | [] => []
  | it :: l' =>
      if Qle_bool c 0 then 0 :: greedy_fractions c l'
      else if Qle_bool (weight it) c then 1 :: greedy_fractions (c - weight it) l'
      else (c / weight it) :: greedy_fractions 0 l'
  end.

(** Descending ratios: every item is followed only by items of at most its
    ratio. *)
Fixpoint ratio_descending (l : list ReliefItem) : Prop :=
  match l with
  | [] => True
  | it :: l' => Forall (fun b => ratio b <= ratio it) l' /\ ratio_descending l'
  end.

End Exact.

(** * Vocabulary of the statements *)

(** Floats that never increase along a list, by the float comparison. *)
Fixpoint descending (l : list float) : Prop :=
  match l with
  | [] => True
  | q :: l' => Forall (fun q' => (q' <=? q) = true) l' /\ descending l'
  end.


(** The remaining capacity after the items of [full] have been taken
    whole, one after the other. *)
Definition remaining_after (rem : float) (full : list ReliefItem) : float :=
  fold_left (fun r it => r - weight it) full rem.

(** Every item of [full] fits when its turn comes: capacity is left and the
    item weighs no more than what is left. *)
Fixpoint all_fit (rem : float) (full : list ReliefItem) : Prop :=
  match full with
  | [] => True
  | it :: full' =>
      (rem <=? 0) = false /\ (weight it <=? rem) = true /\
      all_fit (rem - weight it) full'
  end.

(** What one run of the loop over [l] has done, stated on the list itself:
    a prefix [full] taken whole, then at most one item [part] taken in part,
    then a suffix [skipped]. [rem] is the capacity left after [full]. *)
Record LoopSplit (st : LoopState) (l : list ReliefItem)
    (full part skipped : list ReliefItem) (rem : float) : Prop := {
  split_list : l = full ++ part ++ skipped;
  split_part_le1 : (length part <= 1)%nat;
  split_rem : rem = remaining_after (remaining_capacity st) full;
  split_full_fit : all_fit (remaining_capacity st) full;
  split_part_fits :
    Forall (fun it => (rem <=? 0) = false /\ (weight it <=? rem) = false) part;
  split_skipped : part = [] -> skipped <> [] -> (rem <=? 0) = true;
  split_allocations :
    allocations (run_loop st l) =
      allocations st ++ map full_alloc full ++ map (partial_alloc rem) part;
  split_unallocated :
    unallocated (run_loop st l) =
      unallocated st ++ map (partial_unalloc rem) part
        ++ map skipped_unalloc skipped;
  split_total :
    total_value (run_loop st l) =
      fold_left PrimFloat.add
        (map value full
           ++ map (fun it => value_gained (partial_alloc rem it)) part)
        (total_value st)
}.

(** * The value of a float

    A float that is not NaN has a place on the line of integers: the finite
    float of sign [s], mantissa [m] and exponent [e], whose value is
    [m * 2^e], stands at [m * 2^(e + 1074)] or its opposite (the smallest
    exponent of binary64 is -1074), the zeros at 0, and the infinities
    beyond every finite float.  The float comparisons are the comparisons
    of these integers, and the value of a finite float is its integer
    divided by [2^1074]. *)

Definition rank_inf : Z := (2 ^ 2100)%Z.

Definition SFrank (x : spec_float) : Z :=
  match x with
  | S754_zero _ => 0
  | S754_infinity s => if s then (- rank_inf)%Z else rank_inf
  | S754_nan => 0
  | S754_finite s m e =>
      if s then (- (Zpos m * 2 ^ (e + 1074)))%Z
      else (Zpos m * 2 ^ (e + 1074))%Z
  end.

Definition SFis_nan (x : spec_float) : bool :=
  match x with S754_nan => true | _ => false end.

Definition isnan (x : float) : bool := SFis_nan (Prim2SF x).

Definition finite (x : float) : bool :=
  match Prim2SF x with
  | S754_zero _ | S754_finite _ _ _ => true
  | _ => false
  end.

Definition two_1074 : positive := (2 ^ 1074)%positive.

Definition F2Q (x : float) : Q := SFrank (Prim2SF x) # two_1074.

(** The sum of the values of a list of floats, without rounding. *)
Definition Qsum (l : list float) : Q := Exact.py_sum (map F2Q l).

(** ** Operations that do not round

    An operation is exact on two operands when its result is finite and has
    the value the operation has on the values of the operands. *)
Definition exact_add (x y : float) : bool :=
  finite (x + y) && Qeq_bool (F2Q (x + y)) (F2Q x + F2Q y)%Q.

Definition exact_sub (x y : float) : bool :=
  finite (x - y) && Qeq_bool (F2Q (x - y)) (F2Q x - F2Q y)%Q.

Definition exact_mul (x y : float) : bool :=
  finite (x * y) && Qeq_bool (F2Q (x * y)) (F2Q x * F2Q y)%Q.

Definition exact_div (x y : float) : bool :=
  finite (x / y) && negb (Qeq_bool (F2Q y) 0)
  && Qeq_bool (F2Q (x / y)) (F2Q x / F2Q y)%Q.

(** The operations of the branch that takes a fraction of [item] with
    [rem] left: the fraction, the value gained, and the three fields of the
    unallocated portion. *)
Definition partial_exact (rem : float) (item : ReliefItem) : bool :=
  let fraction := rem / weight item in
  exact_div rem (weight item)
  && exact_mul (value item) fraction
  && exact_sub 1 fraction
  && exact_mul (weight item) (1 - fraction)
  && exact_mul (value item) (1 - fraction).

(** The operations of one iteration of the loop, branch by branch. *)
Definition step_exact (st : LoopState) (item : ReliefItem) : bool :=
  if remaining_capacity st <=? 0 then true
  else if weight item <=? remaining_capacity st then
    exact_sub (remaining_capacity st) (weight item)
    && exact_add (total_value st) (value item)
  else
    partial_exact (remaining_capacity st) item
    && exact_add (total_value st)
         (value item * (remaining_capacity st / weight item)).

Fixpoint loop_exact (st : LoopState) (l : list ReliefItem) : bool :=
  match l with
  | [] => true
  | item :: l' => step_exact st item && loop_exact (loop_body st item) l'
  end.

(** The item's numbers are finite and its ratio is computed exactly. *)
Definition item_exact (it : ReliefItem) : bool :=
  finite (value it) && finite (weight it)
  && exact_div (value it) (weight it).

(** A run of [solve] in which no operation rounds. *)
Definition exact_run (c : float) (items : list ReliefItem) : bool :=
  finite c && forallb item_exact items
  && loop_exact (mkLoopState 0 [] [] c) (sorted_reverse PrimFloat.leb ratio items).

(** A sum of finite floats, added from left to right starting at [a], in
    which no addition rounds. *)
Fixpoint adds_exact (a : float) (l : list float) : bool :=
  match l with
  | [] => true
  | x :: l' => finite x && exact_add a x && adds_exact (a + x) l'
  end.

Definition sum_exact (l : list float) : bool := adds_exact 0 l.

(** ** The exact counterpart of the data *)

Definition exact_item (it : ReliefItem) : Exact.ReliefItem :=
  Exact.mkReliefItem (name it) (F2Q (value it)) (F2Q (weight it)).

(** A record of floats and a record of rationals with the same name and
    the same values, field by field. *)
Definition alloc_rel (a : Allocation) (b : Exact.Allocation) : Prop :=
  alloc_name a = Exact.alloc_name b /\
  (F2Q (weight_allocated a) == Exact.weight_allocated b)%Q /\
  (F2Q (fraction a) == Exact.fraction b)%Q /\
  (F2Q (value_gained a) == Exact.value_gained b)%Q /\
  (F2Q (alloc_ratio a) == Exact.alloc_ratio b)%Q.

Definition unalloc_rel (u : UnallocatedPortion) (v : Exact.UnallocatedPortion)
  : Prop :=
  un_name u = Exact.un_name v /\
  (F2Q (un_weight u) == Exact.un_weight v)%Q /\
  (F2Q (un_value u) == Exact.un_value v)%Q /\
  (F2Q (un_ratio u) == Exact.un_ratio v)%Q /\
  (F2Q (fraction_unallocated u) == Exact.fraction_unallocated v)%Q.

Definition state_rel (st : LoopState) (qt : Exact.LoopState) : Prop :=
  finite (total_value st) = true /\
  finite (remaining_capacity st) = true /\
  (F2Q (total_value st) == Exact.total_value qt)%Q /\
  (F2Q (remaining_capacity st) == Exact.remaining_capacity qt)%Q /\
  Forall2 alloc_rel (allocations st) (Exact.allocations qt) /\
  Forall2 unalloc_rel (unallocated st) (Exact.unallocated qt).

Definition result_rel (r : SolveResult) (q : Exact.SolveResult) : Prop :=
  finite (res_total r) = true /\
  (F2Q (res_total r) == Exact.res_total q)%Q /\
  Forall2 alloc_rel (res_allocations r) (Exact.res_allocations q) /\
  Forall2 unalloc_rel (res_unallocated r) (Exact.res_unallocated q).

(** Fractional assignments on the values of the items: a rational fraction
    per item, in input order. *)
Definition feasible (c : float) (items : list ReliefItem) (xs : list Q) : Prop :=
  Exact.feasible (F2Q c) (map exact_item items) xs.

Definition assignment_value (items : list ReliefItem) (xs : list Q) : Q :=
  Exact.assignment_value (map exact_item items) xs.

(** * Inputs of the examples

    [item_A], [item_B] and [item_C] are the items of [run_test_cases];
    [item_D] has the ratio of [item_A]. *)

Definition item_A : ReliefItem := mkReliefItem "A" 60 10.
Definition item_B : ReliefItem := mkReliefItem "B" 100 20.
Definition item_C : ReliefItem := mkReliefItem "C" 120 30.
Definition item_D : ReliefItem := mkReliefItem "D" 30 5.

Definition item_X : ReliefItem := mkReliefItem "X" 94906272 94906271.
Definition item_Y : ReliefItem := mkReliefItem "Y" 94906273 94906272.

(** A store holding the list [[item_A; item_B; item_C]] at identity 1. *)
Definition demo_heap : gmap loc PyObj :=
  {[ 1%positive := ListObj [2; 3; 4]%positive;
     2%positive := ItemObj item_A;
     3%positive := ItemObj item_B;
     4%positive := ItemObj item_C ]}.

(** Conversions for the examples.  They accept fewer texts than [int] and
    [float] do: [digits_int] reads the non-empty strings of decimal digits
    as the number they spell and rejects everything else; [digits_float]
    reads "nan" as NaN and the strings of one to fifteen decimal digits as
    the float of the number they spell, which is exact. *)
Definition digits_int (s : string) : PyError + Z :=
  match s with
  | EmptyString => inl (ValueError "invalid literal: empty")
  | _ =>
      match NilEmpty.uint_of_string s with
      | Some d => inr (Z.of_uint d)
      | None => inl (ValueError (String.append "invalid literal: " s))
      end
  end.

Definition digits_float (s : string) : PyError + float :=
  if String.eqb s "nan" then inr nan
  else if (15 <? String.length s)%nat then
    inl (ValueError (String.append "could not convert string to float: " s))
  else
    match digits_int s with
    | inr z => inr (of_uint63 (Uint63.of_Z z))
    | inl e => inl e
    end.

Definition digits_str (z : Z) : string :=
  NilEmpty.string_of_int (Z.to_int z).

(** The text of the two bounds the source passes, 0 and 100. *)
Definition float_str (x : float) : string :=
  if x =? 100 then "100"%string else "0"%string.

(** Two items typed in after the capacity 50; a second session in which
    the weight of the first item is typed as 0; a third in which "nan" is
    typed for every number. *)
Definition demo_console : Console :=
  mkConsole ["50"; "2"; "A"; "60"; "10"; "B"; "100"; "20"; "left over"]%string [].

Definition demo_console_bad : Console :=
  mkConsole ["50"; "2"; "A"; "60"; "0"]%string [].

Definition demo_console_nan : Console :=
  mkConsole ["nan"; "1"; "A"; "nan"; "nan"]%string [].

(** Case analysis on a float comparison, keeping its outcome. *)
Ltac case_leb x y :=
  let E := fresh "E" in destruct (x <=? y) eqn:E.

(** Case analysis on a comparison [Qle_bool x y], with both outcomes turned
    into the order facts they stand for. *)
Ltac case_Qle x y :=
  let E := fresh "E" in
  destruct (Qle_bool x y) eqn:E;
  [ apply Qle_bool_iff in E
  | apply not_true_iff_false in E; rewrite Qle_bool_iff in E;
    apply Qnot_le_lt in E ].

(** * Proofs *)

(** ** Float comparisons are those of the integers the floats stand at *)

Section Comparisons.

Local Open Scope Z_scope.

Lemma digits2_size (m : positive) : digits2_pos m = Pos.size m.
Proof. induction m; simpl; congruence. Qed.

Lemma digits2_bounds (m : positive) :
  2 ^ (Zpos (digits2_pos m) - 1) <= Zpos m < 2 ^ Zpos (digits2_pos m).
Proof.
  rewrite digits2_size. split.
  - pose proof (Pos.size_le m) as H.
    assert (Zpos (2 ^ Pos.size m) <= Zpos m~0) by (apply Pos2Z.pos_le_pos; exact H).
    rewrite Pos2Z.inj_pow in H0.
    replace (Zpos (Pos.size m)) with (Zpos (Pos.size m) - 1 + 1) in H0 by lia.
    rewrite Z.pow_add_r in H0 by lia. lia.
  - pose proof (Pos.size_gt m) as H.
    apply Pos2Z.pos_lt_pos in H. rewrite Pos2Z.inj_pow in H. exact H.
Qed.

Lemma bounded_inv (m : positive) (e : Z) :
  bounded prec emax m e = true ->
  -1074 <= e <= 971 /\ Zpos (digits2_pos m) <= 53 /\
  (-1074 < e -> Zpos (digits2_pos m) = 53).
Proof.
  unfold bounded, canonical_mantissa, fexp, emin, prec, emax.
  intros H. apply andb_prop in H as [H1 H2].
  apply Z.eqb_eq in H1. apply Z.leb_le in H2. lia.
Qed.

Lemma finite_rank_bounds (m : positive) (e : Z) :
  bounded prec emax m e = true ->
  0 < Zpos m * 2 ^ (e + 1074) < rank_inf.
Proof.
  intros H. apply bounded_inv in H as (He & Hd & _).
  pose proof (digits2_bounds m) as [_ Hm].
  assert (0 < 2 ^ (e + 1074)) by (apply Z.pow_pos_nonneg; lia).
  split; [apply Z.mul_pos_pos; [reflexivity | assumption]|].
  assert (Zpos m < 2 ^ 53).
  { eapply Z.lt_le_trans; [exact Hm|]. apply Z.pow_le_mono_r; lia. }
  assert (2 ^ (e + 1074) <= 2 ^ 2045) by (apply Z.pow_le_mono_r; lia).
  unfold rank_inf. replace 2100 with (53 + 2047) by lia.
  rewrite (Z.pow_add_r 2 53 2047) by lia.
  assert (2 ^ 2045 < 2 ^ 2047) by (apply Z.pow_lt_mono_r; lia).
  assert (0 < 2 ^ 53) by (apply Z.pow_pos_nonneg; lia).
  nia.
Qed.

(** Finite floats of smaller exponent are smaller. *)
Lemma finite_exp_lt (m1 m2 : positive) (e1 e2 : Z) :
  bounded prec emax m1 e1 = true -> bounded prec emax m2 e2 = true ->
  e1 < e2 ->
  Zpos m1 * 2 ^ (e1 + 1074) < Zpos m2 * 2 ^ (e2 + 1074).
Proof.
  intros B1 B2 Hlt.
  apply bounded_inv in B1 as (He1 & Hd1 & _).
  apply bounded_inv in B2 as (He2 & _ & Hd2).
  specialize (Hd2 ltac:(lia)).
  pose proof (digits2_bounds m1) as [_ Hm1].
  pose proof (digits2_bounds m2) as [Hm2 _]. rewrite Hd2 in Hm2.
  assert (H1 : Zpos m1 < 2 ^ 53).
  { eapply Z.lt_le_trans; [exact Hm1|]. apply Z.pow_le_mono_r; lia. }
  replace (e2 + 1074) with ((e1 + 1074) + (e2 - e1)) by lia.
  rewrite (Z.pow_add_r 2 (e1 + 1074) (e2 - e1)) by lia.
  assert (HA : 0 < 2 ^ (e1 + 1074)) by (apply Z.pow_pos_nonneg; lia).
  assert (HB : 2 ^ 1 <= 2 ^ (e2 - e1)) by (apply Z.pow_le_mono_r; lia).
  change (2 ^ 1) with 2 in HB.
  replace (2 ^ 53) with (2 * 2 ^ (53 - 1)) in H1 by reflexivity.
  change (53 - 1) with 52 in *.
  generalize dependent (2 ^ 52). generalize dependent (2 ^ (e1 + 1074)).
  generalize dependent (2 ^ (e2 - e1)).
  intros B HB A HA P HP1 HP2.
  assert (Zpos m1 * A < 2 * P * A) by nia.
  assert (2 * P * A <= Zpos m2 * A * 2) by nia.
  assert (Zpos m2 * A * 2 <= Zpos m2 * A * B) by nia.
  lia.
Qed.

Lemma finite_mant_compare (ma mb : positive) (A : Z) :
  0 < A -> (Zpos ma * A ?= Zpos mb * A) = Pos.compare_cont Eq ma mb.
Proof.
  intros HA. rewrite Pos.compare_cont_spec. simpl Pos.switch_Eq.
  destruct (Pos.compare_spec ma mb) as [F|F|F].
  - subst. apply Z.compare_eq_iff. reflexivity.
  - apply Z.compare_lt_iff. apply Z.mul_lt_mono_pos_r; [exact HA | lia].
  - apply Z.compare_gt_iff. apply Z.mul_lt_mono_pos_r; [exact HA | lia].
Qed.

Lemma finite_compare_pos (ma mb : positive) (ea eb : Z) :
  bounded prec emax ma ea = true -> bounded prec emax mb eb = true ->
  (Zpos ma * 2 ^ (ea + 1074) ?= Zpos mb * 2 ^ (eb + 1074))
  = match ea ?= eb with
    | Eq => Pos.compare_cont Eq ma mb
    | Lt => Lt
    | Gt => Gt
    end.
Proof.
  intros Va Vb. destruct (Z.compare_spec ea eb) as [E|E|E].
  - subst eb. apply finite_mant_compare.
    apply Z.pow_pos_nonneg; [reflexivity|]. apply bounded_inv in Va. lia.
  - apply Z.compare_lt_iff. apply finite_exp_lt; assumption.
  - apply Z.compare_gt_iff. apply finite_exp_lt; assumption.
Qed.

Lemma SFcompare_rank (a b : spec_float) :
  valid_binary a = true -> valid_binary b = true ->
  SFis_nan a = false -> SFis_nan b = false ->
  SFcompare a b = Some (SFrank a ?= SFrank b).
Proof.
  intros Va Vb Na Nb.
  assert (Hinf : 0 < rank_inf) by (unfold rank_inf; apply Z.pow_pos_nonneg; lia).
  destruct a as [sa|sa| |sa ma ea]; try discriminate;
  destruct b as [sb|sb| |sb mb eb]; try discriminate; simpl in Va, Vb;
    try (pose proof (finite_rank_bounds _ _ Va) as Ra);
    try (pose proof (finite_rank_bounds _ _ Vb) as Rb);
    cbn [SFcompare SFrank].
  all: try (destruct sa); try (destruct sb); f_equal; symmetry.
  all: try (apply Z.compare_eq_iff; lia).
  all: try (apply Z.compare_lt_iff; lia).
  all: try (apply Z.compare_gt_iff; lia).
  - (* both negative *)
    rewrite Z.compare_opp, (finite_compare_pos mb ma eb ea Vb Va).
    rewrite (Z.compare_antisym ea eb).
    destruct (ea ?= eb); simpl; try reflexivity.
    rewrite Pos.compare_cont_antisym. reflexivity.
  - (* both positive *)
    apply finite_compare_pos; assumption.
Qed.

Lemma leb_rank (x y : float) :
  isnan x = false -> isnan y = false ->
  (x <=? y)%float = (SFrank (Prim2SF x) <=? SFrank (Prim2SF y))%Z.
Proof.
  unfold isnan. intros Nx Ny. rewrite FloatAxioms.leb_spec. unfold SFleb.
  rewrite SFcompare_rank by (auto using Prim2SF_valid).
  unfold Z.leb. destruct (_ ?= _); reflexivity.
Qed.

Lemma ltb_rank (x y : float) :
  isnan x = false -> isnan y = false ->
  (x <? y)%float = (SFrank (Prim2SF x) <? SFrank (Prim2SF y))%Z.
Proof.
  unfold isnan. intros Nx Ny. rewrite FloatAxioms.ltb_spec. unfold SFltb.
  rewrite SFcompare_rank by (auto using Prim2SF_valid).
  unfold Z.ltb. destruct (_ ?= _); reflexivity.
Qed.

Lemma eqb_rank (x y : float) :
  isnan x = false -> isnan y = false ->
  (x =? y)%float = (SFrank (Prim2SF x) =? SFrank (Prim2SF y))%Z.
Proof.
  unfold isnan. intros Nx Ny. rewrite FloatAxioms.eqb_spec. unfold SFeqb.
  rewrite SFcompare_rank by (auto using Prim2SF_valid).
  destruct (Z.compare_spec (SFrank (Prim2SF x)) (SFrank (Prim2SF y))) as [E|E|E];
    symmetry.
  - apply Z.eqb_eq. exact E.
  - apply Z.eqb_neq. lia.
  - apply Z.eqb_neq. lia.
Qed.

Lemma leb_true_not_nan (x y : float) :
  (x <=? y)%float = true ->
  isnan x = false /\ isnan y = false.
Proof.
  unfold isnan. rewrite FloatAxioms.leb_spec. unfold SFleb.
  destruct (Prim2SF x) as [| | |[] ? ?], (Prim2SF y) as [| | |[] ? ?];
    simpl; auto; discriminate.
Qed.

End Comparisons.


Lemma ltb_true_not_nan (x y : float) :
  (x <? y) = true -> isnan x = false /\ isnan y = false.
Proof.
  unfold isnan. rewrite FloatAxioms.ltb_spec. unfold SFltb.
  destruct (Prim2SF x) as [| | |[] ? ?], (Prim2SF y) as [| | |[] ? ?];
    simpl; auto; discriminate.
Qed.

Lemma finite_not_nan (x : float) : finite x = true -> isnan x = false.
Proof. unfold finite, isnan. destruct (Prim2SF x); auto; discriminate. Qed.

(** A positive float is not [<= 0]. *)
Lemma ltb_zero_not_leb (c : float) : (0 <? c) = true -> (c <=? 0) = false.
Proof.
  intros H. destruct (ltb_true_not_nan _ _ H) as [N0 Nc].
  rewrite ltb_rank in H by assumption. rewrite leb_rank by assumption.
  apply Z.ltb_lt in H. apply Z.leb_gt. exact H.
Qed.


Lemma leb_trans (x y z : float) :
  (x <=? y) = true -> (y <=? z) = true -> (x <=? z) = true.
Proof.
  intros Hxy Hyz.
  destruct (leb_true_not_nan _ _ Hxy) as [Nx Ny].
  destruct (leb_true_not_nan _ _ Hyz) as [_ Nz].
  rewrite leb_rank in * by assumption.
  apply Z.leb_le in Hxy, Hyz. apply Z.leb_le. lia.
Qed.

Lemma leb_total (x y : float) :
  isnan x = false -> isnan y = false ->
  (x <=? y) = false -> (y <=? x) = true.
Proof.
  intros Nx Ny H. rewrite leb_rank in * by assumption.
  apply Z.leb_gt in H. apply Z.leb_le. lia.
Qed.

Lemma leb_refl (x : float) : isnan x = false -> (x <=? x) = true.
Proof. intros N. rewrite leb_rank by assumption. apply Z.leb_refl. Qed.

(** ** The test scenarios *)

Example test_zero_capacity :
  run_test_case [mkReliefItem "Item1" 10 5] 0 0
  = ERROR (ValueError "Capacity must be positive").
Proof. reflexivity. Qed.

Example test_empty_items : run_test_case [] 100 0 = PASS.
Proof. reflexivity. Qed.

Example test_all_items_fit : run_test_case [item_A; item_B] 50 160 = PASS.
Proof. reflexivity. Qed.

Example test_partial_item :
  run_test_case [item_A; item_B; item_C] 50 240 = PASS.
Proof. reflexivity. Qed.

Example partial_item_total :
  res_total (solve (mkFractionalKnapsack 50) [item_A; item_B; item_C]) = 240.
Proof. reflexivity. Qed.

Example partial_item_names :
  let r := solve (mkFractionalKnapsack 50) [item_C; item_A; item_B] in
  map alloc_name (res_allocations r) = ["A"; "B"; "C"]%string /\
  map un_name (res_unallocated r) = ["C"]%string.
Proof. split; reflexivity. Qed.

Example equal_ratio_order :
  let r := solve (mkFractionalKnapsack 12) [item_D; item_B; item_A] in
  map alloc_name (res_allocations r) = ["D"; "A"]%string /\
  map un_name (res_unallocated r) = ["A"; "B"]%string.
Proof. split; reflexivity. Qed.

(** The two ratios of [item_X] and [item_Y] differ as rationals and are the
    same float: the sort keeps them in input order. *)
Example rounded_ratios_tie :
  ratio item_X = ratio item_Y /\
  map alloc_name
    (res_allocations (solve (mkFractionalKnapsack 94906272) [item_Y; item_X]))
  = ["Y"]%string.
Proof. split; reflexivity. Qed.

(** ** Sums *)

Lemma fold_add_app (l1 l2 : list float) (a : float) :
  fold_left PrimFloat.add (l1 ++ l2) a
  = fold_left PrimFloat.add l2 (fold_left PrimFloat.add l1 a).
Proof. apply fold_left_app. Qed.

(** ** The loop, branch by branch *)

Lemma run_loop_cons (st : LoopState) (it : ReliefItem) (l : list ReliefItem) :
  run_loop st (it :: l) = run_loop (loop_body st it) l.
Proof. reflexivity. Qed.

Lemma loop_body_skip st it :
  (remaining_capacity st <=? 0) = true ->
  loop_body st it =
    mkLoopState (total_value st) (allocations st)
      (unallocated st ++ [skipped_unalloc it]) (remaining_capacity st).
Proof. intros H. unfold loop_body. rewrite H. reflexivity. Qed.

Lemma loop_body_full st it :
  (remaining_capacity st <=? 0) = false ->
  (weight it <=? remaining_capacity st) = true ->
  loop_body st it =
    mkLoopState (total_value st + value it)
      (allocations st ++ [full_alloc it]) (unallocated st)
      (remaining_capacity st - weight it).
Proof. intros H0 H. unfold loop_body. rewrite H0, H. reflexivity. Qed.

Lemma loop_body_partial st it :
  (remaining_capacity st <=? 0) = false ->
  (weight it <=? remaining_capacity st) = false ->
  loop_body st it =
    mkLoopState
      (total_value st + value_gained (partial_alloc (remaining_capacity st) it))
      (allocations st ++ [partial_alloc (remaining_capacity st) it])
      (unallocated st ++ [partial_unalloc (remaining_capacity st) it])
      0.
Proof. intros H0 H. unfold loop_body. rewrite H0, H. reflexivity. Qed.

(** Once the remaining capacity is not positive, every further item is
    skipped and only the unallocated list grows. *)
Lemma run_loop_exhausted (l : list ReliefItem) (st : LoopState) :
  (remaining_capacity st <=? 0) = true ->
  run_loop st l =
    mkLoopState (total_value st) (allocations st)
      (unallocated st ++ map skipped_unalloc l) (remaining_capacity st).
Proof.
  revert st. induction l as [|it l IH]; intros st H.
  - simpl. rewrite app_nil_r. destruct st; reflexivity.
  - rewrite run_loop_cons, loop_body_skip by assumption.
    rewrite IH by (simpl; assumption). simpl.
    rewrite <- app_assoc. reflexivity.
Qed.

Lemma run_loop_split (l : list ReliefItem) (st : LoopState) :
  exists full part skipped rem, LoopSplit st l full part skipped rem.
Proof.
  revert st. induction l as [|it l IH]; intros st.
  - exists [], [], [], (remaining_capacity st).
    split; simpl; rewrite ?app_nil_r; auto; try congruence.
  - case_leb (remaining_capacity st) 0.
    + (* skipped from here on *)
      exists [], [], (it :: l), (remaining_capacity st).
      split; simpl map; rewrite ?app_nil_l; auto;
        try (rewrite run_loop_exhausted by assumption; simpl;
             rewrite ?app_nil_r; reflexivity).
      exact I.
    + case_leb (weight it) (remaining_capacity st).
      * (* full take *)
        destruct (IH (loop_body st it)) as (full & part & skipped & rem & S).
        destruct S as [S1 S2 S3 S4 S5 S6 S7 S8 S9].
        rewrite loop_body_full in S3, S4, S7, S8, S9 by assumption.
        simpl in S3, S4, S7, S8, S9.
        exists (it :: full), part, skipped, rem.
        split; auto.
        -- simpl. congruence.
        -- simpl. auto.
        -- rewrite run_loop_cons, loop_body_full, S7, <- app_assoc by assumption.
           reflexivity.
        -- rewrite run_loop_cons, loop_body_full, S8 by assumption. reflexivity.
        -- rewrite run_loop_cons, loop_body_full, S9 by assumption. reflexivity.
      * (* partial take, then nothing is left *)
        exists [], [it], l, (remaining_capacity st).
        split; simpl map; auto.
        -- exact I.
        -- discriminate.
        -- rewrite run_loop_cons, loop_body_partial by assumption.
           rewrite run_loop_exhausted by reflexivity. reflexivity.
        -- rewrite run_loop_cons, loop_body_partial by assumption.
           rewrite run_loop_exhausted by reflexivity.
           simpl. rewrite <- app_assoc. reflexivity.
        -- rewrite run_loop_cons, loop_body_partial by assumption.
           rewrite run_loop_exhausted by reflexivity. reflexivity.
Qed.

(** ** The sort: a permutation that commutes with maps *)

Lemma insert_desc_perm {A K} (le : K -> K -> bool) (key : A -> K)
    (x : A) (l : list A) :
  Permutation (insert_desc le key x l) (x :: l).
Proof.
  induction l as [|y l IH]; simpl.
  - reflexivity.
  - destruct (le (key y) (key x)).
    + reflexivity.
    + rewrite IH. apply perm_swap.
Qed.

Lemma sorted_reverse_perm {A K} (le : K -> K -> bool) (key : A -> K)
    (l : list A) :
  Permutation (sorted_reverse le key l) l.
Proof.
  induction l as [|x l IH]; simpl.
  - reflexivity.
  - rewrite insert_desc_perm. constructor. exact IH.
Qed.

Lemma insert_desc_map {A B K} (le : K -> K -> bool) (f : A -> B)
    (key : B -> K) (x : A) (l : list A) :
  map f (insert_desc le (fun a => key (f a)) x l)
  = insert_desc le key (f x) (map f l).
Proof.
  induction l as [|y l IH]; [reflexivity|].
  simpl. destruct (le (key (f y)) (key (f x))); simpl; congruence.
Qed.

Lemma sorted_reverse_map {A B K} (le : K -> K -> bool) (f : A -> B)
    (key : B -> K) (l : list A) :
  map f (sorted_reverse le (fun a => key (f a)) l)
  = sorted_reverse le key (map f l).
Proof.
  induction l as [|x l IH]; [reflexivity|].
  simpl. rewrite insert_desc_map. f_equal. exact IH.
Qed.

Lemma Forall_valid_sorted (items : list ReliefItem) :
  Forall valid_item items ->
  Forall valid_item (sorted_reverse PrimFloat.leb ratio items).
Proof.
  intros H. eapply Permutation_Forall; [|exact H].
  symmetry. apply sorted_reverse_perm.
Qed.

(** [solve] on a non-empty list is the loop on the sorted list; on the empty
    list the loop would return the same triple. *)
Lemma solve_run_loop (c : float) (items : list ReliefItem) :
  let st := run_loop (mkLoopState 0 [] [] c)
              (sorted_reverse PrimFloat.leb ratio items) in
  solve (mkFractionalKnapsack c) items =
    (total_value st, allocations st, unallocated st).
Proof. destruct items; reflexivity. Qed.

Lemma solve_split (c : float) (items : list ReliefItem) :
  exists full part skipped rem,
    LoopSplit (mkLoopState 0 [] [] c) (sorted_reverse PrimFloat.leb ratio items)
      full part skipped rem /\
    solve (mkFractionalKnapsack c) items =
      (total_value (run_loop (mkLoopState 0 [] [] c)
                      (sorted_reverse PrimFloat.leb ratio items)),
       map full_alloc full ++ map (partial_alloc rem) part,
       map (partial_unalloc rem) part ++ map skipped_unalloc skipped).
Proof.
  destruct (run_loop_split (sorted_reverse PrimFloat.leb ratio items)
              (mkLoopState 0 [] [] c))
    as (full & part & skipped & rem & S).
  exists full, part, skipped, rem. split; [exact S|].
  rewrite solve_run_loop. cbv zeta.
  rewrite (split_allocations _ _ _ _ _ _ S), (split_unallocated _ _ _ _ _ _ S).
  reflexivity.
Qed.

Lemma length_le1_inv {A} (l : list A) :
  (length l <= 1)%nat -> l = [] \/ exists x, l = [x].
Proof.
  destruct l as [|x [|y l]]; simpl; intros H.
  - now left.
  - right. now exists x.
  - lia.
Qed.

Lemma valid_item_checks (it : ReliefItem) :
  valid_item it <-> (weight it <=? 0) = false /\ (value it <=? 0) = false.
Proof.
  unfold valid_item, ReliefItem_init.
  case_leb (weight it) 0.
  - split; [discriminate | intros [H _]; discriminate].
  - case_leb (value it) 0.
    + split; [discriminate | intros [_ H]; discriminate].
    + destruct it; simpl in *. split; auto.
Qed.

(** * Properties of construction *)

Lemma leb_zero_cases (c : float) :
  (c <=? 0) = false <-> (0 <? c) = true \/ isnan c = true.
Proof.
  destruct (isnan c) eqn:N.
  - split; [auto|]. intros _.
    destruct (c <=? 0) eqn:E; [|reflexivity].
    apply leb_true_not_nan in E as [E _]. congruence.
  - assert (N0 : isnan 0 = false) by reflexivity.
    rewrite leb_rank, ltb_rank by assumption.
    rewrite Z.leb_gt, Z.ltb_lt. intuition discriminate.
Qed.

(** C6. Constructing a solver raises the capacity error exactly when
    [capacity <= 0] holds (capacity 0 included); otherwise it succeeds and
    stores the capacity, and it does so for every capacity above 0.  The
    capacities on which it succeeds are those above 0 and NaN, on which
    every comparison is false. *)
Theorem FractionalKnapsack_init_capacity (c : float) :
  (FractionalKnapsack_init c = inl (ValueError "Capacity must be positive")
     <-> (c <=? 0) = true) /\
  ((0 <? c) = true ->
   FractionalKnapsack_init c = inr (mkFractionalKnapsack c)) /\
  (FractionalKnapsack_init c = inr (mkFractionalKnapsack c)
     <-> (0 <? c) = true \/ isnan c = true).
Proof.
  pose proof (leb_zero_cases c) as Z. unfold FractionalKnapsack_init.
  case_leb c 0.
  - split; [tauto|]. split.
    + intros H. apply ltb_zero_not_leb in H. congruence.
    + split; [discriminate|]. intros H. apply Z in H. discriminate.
  - split; [split; discriminate|]. split; [reflexivity|].
    split; [intros _; apply Z; reflexivity | reflexivity].
Qed.

Lemma FractionalKnapsack_init_capacity_witness :
  FractionalKnapsack_init 0 = inl (ValueError "Capacity must be positive") /\
  FractionalKnapsack_init 50 = inr (mkFractionalKnapsack 50).
Proof.
  split.
  - apply (proj1 (FractionalKnapsack_init_capacity 0)). reflexivity.
  - apply (proj1 (proj2 (FractionalKnapsack_init_capacity 50))). reflexivity.
Defined.

(** C7. Constructing an item with [weight <= 0] fails with the error that
    names the weight and the item; with [weight > 0] and [value <= 0] it
    fails with the error that names the value and the item; with both above
    0 it succeeds with the three fields as given, whatever the name (the
    empty name included). *)
Theorem ReliefItem_init_validation (n : string) (v w : float) :
  ((w <=? 0) = true ->
   ReliefItem_init n v w =
     inl (ValueError (String.append "Weight must be positive for " n))) /\
  ((0 <? w) = true -> (v <=? 0) = true ->
   ReliefItem_init n v w =
     inl (ValueError (String.append "Value must be positive for " n))) /\
  ((0 <? w) = true -> (0 <? v) = true ->
   ReliefItem_init n v w = inr (mkReliefItem n v w)).
Proof.
  unfold ReliefItem_init. split; [|split].
  - intros ->. reflexivity.
  - intros Hw ->. rewrite (ltb_zero_not_leb _ Hw). reflexivity.
  - intros Hw Hv.
    rewrite (ltb_zero_not_leb _ Hw), (ltb_zero_not_leb _ Hv). reflexivity.
Qed.

Lemma ReliefItem_init_validation_witness :
  ReliefItem_init "Tents" 70 0 =
    inl (ValueError "Weight must be positive for Tents") /\
  ReliefItem_init "Tents" (-1) 40 =
    inl (ValueError "Value must be positive for Tents") /\
  ReliefItem_init "" 70 40 = inr (mkReliefItem "" 70 40).
Proof.
  split; [|split].
  - apply (proj1 (ReliefItem_init_validation "Tents" 70 0)). reflexivity.
  - apply (proj1 (proj2 (ReliefItem_init_validation "Tents" (-1) 40)));
      reflexivity.
  - apply (proj2 (proj2 (ReliefItem_init_validation "" 70 40))); reflexivity.
Defined.

(** * Properties of [solve] *)

(** C4. For every capacity above 0, [solve] on the empty list returns
    exactly [(0, [], [])]. *)
Theorem solve_empty (c : float) :
  (0 <? c) = true -> solve (mkFractionalKnapsack c) [] = (0, [], []).
Proof. intros _. reflexivity. Qed.

Lemma solve_empty_witness :
  (0 <? 100) = true /\ solve (mkFractionalKnapsack 100) [] = (0, [], []).
Proof. split; [reflexivity | apply (solve_empty 100); reflexivity]. Defined.

Lemma eqb_refl_not_nan (x : float) : isnan x = false -> (x =? x) = true.
Proof. intros N. rewrite eqb_rank by assumption. apply Z.eqb_refl. Qed.

(** C3. The total value returned by [solve] is the sum of [value_gained]
    over the returned allocations, added in list order: the two are the
    same float, so they compare equal unless the total is NaN. *)
Theorem solve_total_is_sum_of_value_gained (c : float)
    (items : list ReliefItem) :
  (0 <? c) = true -> Forall valid_item items ->
  let r := solve (mkFractionalKnapsack c) items in
  res_total r = py_sum (map value_gained (res_allocations r)) /\
  (isnan (res_total r) = false ->
   (res_total r =? py_sum (map value_gained (res_allocations r))) = true).
Proof.
  intros _ _ r. subst r.
  assert (E : res_total (solve (mkFractionalKnapsack c) items)
              = py_sum (map value_gained
                          (res_allocations (solve (mkFractionalKnapsack c) items)))).
  { destruct (solve_split c items) as (full & part & skipped & rem & S & E).
    rewrite E. unfold res_total, res_allocations, py_sum. simpl fst. simpl snd.
    rewrite (split_total _ _ _ _ _ _ S). simpl total_value.
    rewrite map_app, !map_map. reflexivity. }
  split; [exact E|].
  intros N. rewrite <- E. apply eqb_refl_not_nan, N.
Qed.

Lemma solve_total_is_sum_of_value_gained_witness :
  let r := solve (mkFractionalKnapsack 50) [item_A; item_B; item_C] in
  res_total r = py_sum (map value_gained (res_allocations r)) /\
  (isnan (res_total r) = false ->
   (res_total r =? py_sum (map value_gained (res_allocations r))) = true).
Proof.
  apply (solve_total_is_sum_of_value_gained 50 [item_A; item_B; item_C]).
  - reflexivity.
  - repeat constructor.
Defined.

(** ** Stability of the sort *)

Section Stability.

Context {A : Type} (key : A -> float).



End Stability.




(** The run behind the witness: D and A have ratio 6; A is listed first and
    is taken first. *)
Example stable_run :
  let r := solve (mkFractionalKnapsack 12) [item_A; item_B; item_D] in
  map alloc_name (res_allocations r) = ["A"; "D"]%string /\
  map un_name (res_unallocated r) = ["D"; "B"]%string.
Proof. split; reflexivity. Qed.

(** * [solve] leaves its arguments alone *)

Example demo_heap_list : get_list demo_heap 1%positive = Some [2; 3; 4]%positive.
Proof. reflexivity. Qed.

Example demo_heap_items :
  read_items demo_heap [2; 3; 4]%positive = Some [item_A; item_B; item_C].
Proof. reflexivity. Qed.

Example demo_heap_solve :
  fst <$> solve_heap (mkFractionalKnapsack 50) 1%positive demo_heap
  = Some (solve (mkFractionalKnapsack 50) [item_A; item_B; item_C]).
Proof. vm_compute. reflexivity. Qed.

Lemma read_items_denotes h refs items :
  read_items h refs = Some items ->
  exists ps, map fst ps = refs /\ map snd ps = items /\ denotes h ps.
Proof.
  revert items. induction refs as [|r refs IH]; intros items H.
  - simpl in H. assert (items = []) as -> by congruence.
    exists []. repeat split. constructor.
  - simpl in H. destruct (get_item h r) as [it|] eqn:Er; [|discriminate].
    destruct (read_items h refs) as [its|]; [|discriminate].
    assert (items = it :: its) as -> by congruence.
    destruct (IH its eq_refl) as (ps & <- & <- & D).
    exists ((r, it) :: ps). repeat split. constructor; assumption.
Qed.

Lemma denotes_read_items h ps :
  denotes h ps -> read_items h (map fst ps) = Some (map snd ps).
Proof.
  induction 1 as [|[r it] ps Hp _ IH]; [reflexivity|].
  simpl in *. rewrite Hp, IH. reflexivity.
Qed.

Lemma denotes_read_keys h ps :
  denotes h ps ->
  read_keys h (map fst ps) = Some (map (fun p => (fst p, ratio (snd p))) ps).
Proof.
  induction 1 as [|[r it] ps Hp _ IH]; [reflexivity|].
  simpl in *. rewrite Hp, IH. reflexivity.
Qed.

Lemma denotes_run_loop h ps st :
  denotes h ps -> run_loop_heap h st (map fst ps) = Some (run_loop st (map snd ps)).
Proof.
  intros D. revert st. induction D as [|[r it] ps Hp _ IH]; intros st.
  - reflexivity.
  - simpl in *. rewrite Hp. apply IH.
Qed.

Lemma get_item_insert_new h new o r it :
  h !! new = None -> get_item h r = Some it ->
  get_item (<[new := o]> h) r = Some it.
Proof.
  unfold get_item. intros Hn Hr.
  destruct (decide (new = r)) as [->|Hne].
  - rewrite Hn in Hr. discriminate.
  - rewrite lookup_insert_ne by assumption. exact Hr.
Qed.

Lemma fresh_dom_None (h : gmap loc PyObj) : h !! fresh (dom h) = None.
Proof. apply not_elem_of_dom, is_fresh. Qed.

(** C9. [solve] leaves its arguments alone.  Run on a store in which [items]
    is a list object whose references denote the items [its], it returns
    what the function [solve] of the item values returns, and a store in
    which every object that existed before the call is unchanged; so the
    caller's list holds the same references, in the same order, and they
    denote the same items (name, value and weight). *)
Theorem solve_heap_frame (self : FractionalKnapsack) (items : loc)
    (h : gmap loc PyObj) (refs : list loc) (its : list ReliefItem) :
  get_list h items = Some refs ->
  read_items h refs = Some its ->
  exists h',
    solve_heap self items h = Some (solve self its, h') /\
    (forall k o, h !! k = Some o -> h' !! k = Some o) /\
    get_list h' items = Some refs /\
    read_items h' refs = Some its.
Proof.
  intros Hl Hr. unfold solve_heap. rewrite Hl.
  destruct refs as [|r0 refs0].
  { simpl in Hr. assert (its = []) as -> by congruence. exists h. auto. }
  destruct its as [|i0 its0].
  { simpl in Hr. destruct (get_item h r0), (read_items h refs0); discriminate. }
  cbv iota.
  destruct (read_items_denotes _ _ _ Hr) as (ps & E1 & E2 & D).
  pose proof (denotes_read_keys _ _ D) as K. rewrite E1 in K.
  pose (new := fresh (dom h)).
  pose (sorted := sorted_reverse PrimFloat.leb snd
                    (map (fun p => (fst p, ratio (snd p))) ps)).
  pose (h1 := <[new := ListObj (map fst sorted)]> h).
  assert (Hnew : h !! new = None) by apply fresh_dom_None.
  assert (Hframe : forall k o, h !! k = Some o -> h1 !! k = Some o).
  { intros k o Hk. unfold h1. rewrite lookup_insert_ne; [exact Hk|].
    intros ->. congruence. }
  assert (Hs : map fst sorted
               = map fst (sorted_reverse PrimFloat.leb
                            (fun p => ratio (snd p)) ps)).
  { unfold sorted.
    rewrite <- (sorted_reverse_map PrimFloat.leb
                  (fun p => (fst p, ratio (snd p))) snd).
    rewrite map_map. reflexivity. }
  assert (D1 : denotes h1 (sorted_reverse PrimFloat.leb
                             (fun p => ratio (snd p)) ps)).
  { eapply Permutation_Forall; [symmetry; apply sorted_reverse_perm|].
    eapply List.Forall_impl; [|exact D].
    intros p Hp. apply get_item_insert_new; assumption. }
  assert (Hg : get_list h1 new = Some (map fst sorted)).
  { unfold get_list, h1. rewrite lookup_insert_eq. reflexivity. }
  exists h1. unfold sorted_heap. rewrite K.
  fold new. fold sorted. fold h1. rewrite Hg, Hs.
  rewrite (denotes_run_loop _ _ _ D1).
  rewrite (sorted_reverse_map PrimFloat.leb snd ratio ps), E2.
  repeat split.
  - exact Hframe.
  - unfold get_list in *. destruct (h !! items) as [o|] eqn:Ei; [|discriminate].
    rewrite (Hframe _ _ Ei). exact Hl.
  - rewrite <- E1, <- E2. apply denotes_read_items.
    eapply List.Forall_impl; [|exact D].
    intros p Hp. apply get_item_insert_new; assumption.
Qed.

Lemma solve_heap_frame_witness :
  exists h',
    solve_heap (mkFractionalKnapsack 50) 1%positive demo_heap
      = Some (solve (mkFractionalKnapsack 50) [item_A; item_B; item_C], h') /\
    (forall k o, demo_heap !! k = Some o -> h' !! k = Some o) /\
    get_list h' 1%positive = Some [2; 3; 4]%positive /\
    read_items h' [2; 3; 4]%positive = Some [item_A; item_B; item_C].
Proof.
  apply (solve_heap_frame (mkFractionalKnapsack 50) 1%positive demo_heap
           [2; 3; 4]%positive [item_A; item_B; item_C]); reflexivity.
Defined.

(** * Further properties of [solve] *)




(** ** Descending ratios *)

Lemma insert_desc_descending (x : ReliefItem) (l : list ReliefItem) :
  isnan (ratio x) = false ->
  Forall (fun it => isnan (ratio it) = false) l ->
  descending (map ratio l) ->
  descending (map ratio (insert_desc PrimFloat.leb ratio x l)).
Proof.
  intros Nx. induction l as [|y l IH]; intros Nl D.
  - simpl. auto.
  - apply Forall_cons_iff in Nl as [Ny Nl]. destruct D as [D1 D2].
    cbn [insert_desc]. case_leb (ratio y) (ratio x).
    + cbn [map descending]. split; [|split; assumption].
      constructor; [assumption|].
      eapply List.Forall_impl; [|exact D1].
      intros q Hq. cbv beta in *. eapply leb_trans; eassumption.
    + cbn [map descending]. split; [|apply IH; assumption].
      apply List.Forall_map.
      eapply Permutation_Forall;
        [symmetry; apply (insert_desc_perm PrimFloat.leb ratio)|].
      constructor; [apply leb_total; assumption|].
      apply List.Forall_map in D1. exact D1.
Qed.

Lemma sorted_reverse_descending (l : list ReliefItem) :
  Forall (fun it => isnan (ratio it) = false) l ->
  descending (map ratio (sorted_reverse PrimFloat.leb ratio l)).
Proof.
  induction 1 as [|x l Nx Nl IH]; [exact I|].
  cbn [sorted_reverse fold_right]. apply insert_desc_descending; auto.
  eapply Permutation_Forall;
    [symmetry; apply (sorted_reverse_perm PrimFloat.leb ratio)|exact Nl].
Qed.

Lemma descending_repeat (l1 l2 : list float) (q : float) :
  isnan q = false ->
  descending (l1 ++ q :: l2) -> descending (l1 ++ q :: q :: l2).
Proof.
  intros Nq. induction l1 as [|x l1 IH]; simpl; intros [H1 H2].
  - repeat split; auto. constructor; [apply leb_refl, Nq | assumption].
  - split; [|auto].
    apply Forall_app in H1 as [Ha Hb]. apply Forall_app. split; [assumption|].
    apply Forall_cons_iff in Hb as [Hq Hb]. repeat constructor; assumption.
Qed.

(** X2. Read in order, first the allocations and then the unallocated
    entries, the ratios never increase: both lists are in descending order
    of ratio, and no unallocated entry has a higher ratio than any
    allocation.  This holds for every capacity and every item list whose
    ratios are not NaN. *)
Theorem solve_output_descending (c : float) (items : list ReliefItem) :
  Forall (fun it => isnan (ratio it) = false) items ->
  let r := solve (mkFractionalKnapsack c) items in
  descending (map alloc_ratio (res_allocations r)
                ++ map un_ratio (res_unallocated r)).
Proof.
  intros N r. subst r.
  pose proof (sorted_reverse_descending items N) as D.
  destruct (solve_split c items) as (full & part & skipped & rem & S & E).
  rewrite E. unfold res_allocations, res_unallocated. simpl fst. simpl snd.
  assert (Np : Forall (fun it => isnan (ratio it) = false) part).
  { eapply Permutation_Forall in N;
      [|symmetry; apply (sorted_reverse_perm PrimFloat.leb ratio)].
    rewrite (split_list _ _ _ _ _ _ S) in N.
    apply Forall_app in N as [_ N]. apply Forall_app in N as [N _]. exact N. }
  rewrite (split_list _ _ _ _ _ _ S) in D.
  rewrite !map_app, !map_map in *. simpl.
  change (fun x : ReliefItem => ratio x) with ratio.
  rewrite <- app_assoc.
  destruct (length_le1_inv part (split_part_le1 _ _ _ _ _ _ S))
    as [->|[p ->]]; simpl in *.
  - exact D.
  - apply descending_repeat; [|exact D]. apply Forall_inv in Np. exact Np.
Qed.

Lemma solve_output_descending_witness :
  let r := solve (mkFractionalKnapsack 50) [item_C; item_A; item_B] in
  descending (map alloc_ratio (res_allocations r)
                ++ map un_ratio (res_unallocated r)).
Proof.
  apply (solve_output_descending 50 [item_C; item_A; item_B]).
  repeat constructor.
Defined.

(** X6. The two output lists together hold at least one record per input
    item and at most one more: every item yields a record, and only the item
    taken in part yields two.  The allocations alone never outnumber the
    items.  This holds for every capacity and every item list. *)
Theorem solve_output_lengths (c : float) (items : list ReliefItem) :
  let r := solve (mkFractionalKnapsack c) items in
  let n := (length (res_allocations r) + length (res_unallocated r))%nat in
  (length items <= n)%nat /\ (n <= length items + 1)%nat /\
  (length (res_allocations r) <= length items)%nat.
Proof.
  intros r n. subst n r.
  destruct (solve_split c items) as (full & part & skipped & rem & S & E).
  rewrite E. unfold res_allocations, res_unallocated. simpl fst. simpl snd.
  pose proof (Permutation_length (sorted_reverse_perm PrimFloat.leb ratio items))
    as L.
  rewrite (split_list _ _ _ _ _ _ S) in L.
  pose proof (split_part_le1 _ _ _ _ _ _ S) as P.
  rewrite !length_app, !length_map in *. lia.
Qed.

(** * The algorithm over exact rationals: facts

    The facts of this module are about [Exact], the algorithm without
    rounding.  They reach the floats of the source through the runs in which
    no operation rounds. *)
Module ExactFacts.

Import Exact.
Local Open Scope Q_scope.

(** ** Basic facts: comparisons, sums *)

Lemma valid_item_pos (it : ReliefItem) :
  valid_item it <-> 0 < weight it /\ 0 < value it.
Proof.
  unfold valid_item, ReliefItem_init.
  case_Qle (weight it) 0.
  - split; [discriminate | intros [H _]; lra].
  - case_Qle (value it) 0.
    + split; [discriminate | intros [_ H]; lra].
    + destruct it; simpl in *. split; auto.
Qed.

Lemma py_sum_from (l : list Q) (a : Q) : fold_left Qplus l a == a + py_sum l.
Proof.
  unfold py_sum. revert a. induction l as [|x l IH]; intros a; simpl.
  - lra.
  - rewrite IH, (IH (0 + x)). lra.
Qed.

Lemma py_sum_nil : py_sum [] == 0.
Proof. reflexivity. Qed.

Lemma py_sum_cons (x : Q) (l : list Q) : py_sum (x :: l) == x + py_sum l.
Proof. unfold py_sum at 1. simpl. rewrite py_sum_from. lra. Qed.

Lemma py_sum_app (l1 l2 : list Q) : py_sum (l1 ++ l2) == py_sum l1 + py_sum l2.
Proof.
  induction l1 as [|x l1 IH]; simpl.
  - rewrite py_sum_nil. lra.
  - rewrite !py_sum_cons, IH. lra.
Qed.


(** ** The loop, branch by branch *)

Lemma run_loop_cons_Q (st : LoopState) (it : ReliefItem) (l : list ReliefItem) :
  run_loop st (it :: l) = run_loop (loop_body st it) l.
Proof. reflexivity. Qed.

Lemma loop_body_skip_Q st it :
  remaining_capacity st <= 0 ->
  loop_body st it =
    mkLoopState (total_value st) (allocations st)
      (unallocated st ++ [skipped_unalloc it]) (remaining_capacity st).
Proof.
  intros H. unfold loop_body.
  apply Qle_bool_iff in H. rewrite H. reflexivity.
Qed.

Lemma loop_body_full_Q st it :
  0 < remaining_capacity st -> weight it <= remaining_capacity st ->
  loop_body st it =
    mkLoopState (total_value st + value it)
      (allocations st ++ [full_alloc it]) (unallocated st)
      (remaining_capacity st - weight it).
Proof.
  intros H0 H. unfold loop_body.
  case_Qle (remaining_capacity st) 0; [lra|].
  apply Qle_bool_iff in H. rewrite H. reflexivity.
Qed.

Lemma loop_body_partial_Q st it :
  0 < remaining_capacity st -> remaining_capacity st < weight it ->
  loop_body st it =
    mkLoopState
      (total_value st + value_gained (partial_alloc (remaining_capacity st) it))
      (allocations st ++ [partial_alloc (remaining_capacity st) it])
      (unallocated st ++ [partial_unalloc (remaining_capacity st) it])
      0.
Proof.
  intros H0 H. unfold loop_body.
  case_Qle (remaining_capacity st) 0; [lra|].
  case_Qle (weight it) (remaining_capacity st); [lra|].
  reflexivity.
Qed.

(** Once the remaining capacity is not positive, every further item is
    skipped and only the unallocated list grows. *)
Lemma run_loop_exhausted_Q (l : list ReliefItem) (st : LoopState) :
  remaining_capacity st <= 0 ->
  run_loop st l =
    mkLoopState (total_value st) (allocations st)
      (unallocated st ++ map skipped_unalloc l) (remaining_capacity st).
Proof.
  revert st. induction l as [|it l IH]; intros st H.
  - simpl. rewrite app_nil_r. destruct st; reflexivity.
  - rewrite run_loop_cons_Q, loop_body_skip_Q by assumption.
    rewrite IH by (simpl; assumption). simpl.
    rewrite <- app_assoc. reflexivity.
Qed.

Lemma run_loop_split_Q (l : list ReliefItem) (st : LoopState) :
  0 <= remaining_capacity st ->
  exists full part skipped rem, LoopSplit st l full part skipped rem.
Proof.
  revert st. induction l as [|it l IH]; intros st Hc.
  - exists [], [], [], (remaining_capacity st).
    split; simpl; rewrite ?app_nil_r, ?py_sum_nil; auto; try lra.
    congruence.
  - case_Qle (remaining_capacity st) 0.
    + (* skipped from here on *)
      exists [], [], (it :: l), (remaining_capacity st).
      split; simpl map; rewrite ?app_nil_l, ?py_sum_nil; auto; try lra;
        rewrite run_loop_exhausted_Q by assumption; simpl;
        rewrite ?app_nil_r; auto; lra.
    + case_Qle (weight it) (remaining_capacity st).
      * (* full take *)
        destruct (IH (loop_body st it)) as (full & part & skipped & rem & S).
        { rewrite loop_body_full_Q by assumption. simpl. lra. }
        destruct S as [S1 S2 S3 S4 S5 S6 S7 S8 S9].
        rewrite loop_body_full_Q in S3, S7, S8, S9 by assumption.
        simpl in S3, S7, S8, S9.
        exists (it :: full), part, skipped, rem.
        split; auto.
        -- simpl. congruence.
        -- simpl map. rewrite py_sum_cons. lra.
        -- rewrite run_loop_cons_Q, loop_body_full_Q, S7, <- app_assoc by assumption.
           reflexivity.
        -- rewrite run_loop_cons_Q, loop_body_full_Q, S8 by assumption. reflexivity.
        -- rewrite run_loop_cons_Q, loop_body_full_Q, S9 by assumption.
           simpl map. rewrite py_sum_cons. lra.
      * (* partial take, then nothing is left *)
        exists [], [it], l, (remaining_capacity st).
        split; simpl map; rewrite ?py_sum_nil; auto; try lra.
        -- discriminate.
        -- rewrite run_loop_cons_Q, loop_body_partial_Q by assumption.
           rewrite run_loop_exhausted_Q by (simpl; lra). reflexivity.
        -- rewrite run_loop_cons_Q, loop_body_partial_Q by assumption.
           rewrite run_loop_exhausted_Q by (simpl; lra).
           simpl. rewrite <- app_assoc. reflexivity.
        -- rewrite run_loop_cons_Q, loop_body_partial_Q by assumption.
           rewrite run_loop_exhausted_Q by (simpl; lra).
           rewrite py_sum_cons, py_sum_nil. simpl. lra.
Qed.

(** ** The sort is a permutation *)


Lemma py_sum_perm (l l' : list Q) : Permutation l l' -> py_sum l == py_sum l'.
Proof.
  induction 1 as [|x l l' _ IH|x y l|l l' l'' _ IH1 _ IH2].
  - reflexivity.
  - rewrite !py_sum_cons, IH. reflexivity.
  - rewrite !py_sum_cons. lra.
  - rewrite IH1. exact IH2.
Qed.

Lemma Forall_valid_sorted_Q (items : list ReliefItem) :
  Forall valid_item items -> Forall valid_item (sorted_reverse Qle_bool ratio items).
Proof.
  intros H. eapply Permutation_Forall; [|exact H].
  symmetry. apply sorted_reverse_perm.
Qed.

(** [solve] on a non-empty list is the loop on the sorted list; on the empty
    list the loop would return the same triple. *)
Lemma solve_run_loop_Q (c : Q) (items : list ReliefItem) :
  let st := run_loop (mkLoopState 0 [] [] c) (sorted_reverse Qle_bool ratio items) in
  solve (mkFractionalKnapsack c) items =
    (total_value st, allocations st, unallocated st).
Proof. destruct items; reflexivity. Qed.

Lemma solve_split_Q (c : Q) (items : list ReliefItem) :
  0 <= c ->
  exists full part skipped rem,
    LoopSplit (mkLoopState 0 [] [] c) (sorted_reverse Qle_bool ratio items)
      full part skipped rem /\
    solve (mkFractionalKnapsack c) items =
      (total_value (run_loop (mkLoopState 0 [] [] c) (sorted_reverse Qle_bool ratio items)),
       map full_alloc full ++ map (partial_alloc rem) part,
       map (partial_unalloc rem) part ++ map skipped_unalloc skipped).
Proof.
  intros Hc.
  destruct (run_loop_split_Q (sorted_reverse Qle_bool ratio items) (mkLoopState 0 [] [] c))
    as (full & part & skipped & rem & S); [exact Hc|].
  exists full, part, skipped, rem. split; [exact S|].
  rewrite solve_run_loop_Q. cbv zeta.
  rewrite (split_allocations _ _ _ _ _ _ S), (split_unallocated _ _ _ _ _ _ S).
  reflexivity.
Qed.






(** ** Optimality of the greedy pass *)

Lemma run_loop_total (l : list ReliefItem) (st : LoopState) :
  total_value (run_loop st l)
  == total_value st + greedy (remaining_capacity st) l.
Proof.
  revert st. induction l as [|it l IH]; intros st.
  - simpl. lra.
  - cbn [greedy]. case_Qle (remaining_capacity st) 0.
    + rewrite run_loop_exhausted_Q by assumption. simpl. lra.
    + case_Qle (weight it) (remaining_capacity st).
      * rewrite run_loop_cons_Q, IH, loop_body_full_Q by assumption. simpl. lra.
      * rewrite run_loop_cons_Q, loop_body_partial_Q by assumption.
        rewrite run_loop_exhausted_Q by (simpl; lra). simpl. lra.
Qed.

Lemma solve_total_greedy (c : Q) (items : list ReliefItem) :
  res_total (solve (mkFractionalKnapsack c) items)
  == greedy c (sorted_reverse Qle_bool ratio items).
Proof.
  rewrite solve_run_loop_Q. unfold res_total. simpl fst.
  rewrite run_loop_total. simpl. lra.
Qed.

Lemma greedy_nonpos (c : Q) (l : list ReliefItem) : c <= 0 -> greedy c l = 0.
Proof.
  intros H. destruct l as [|it l]; [reflexivity|].
  simpl. apply Qle_bool_iff in H. rewrite H. reflexivity.
Qed.

Lemma value_ratio (it : ReliefItem) :
  0 < weight it -> value it == ratio it * weight it.
Proof. intros H. unfold ratio. field. lra. Qed.

Lemma ratio_pos (it : ReliefItem) : valid_item it -> 0 < ratio it.
Proof.
  intros H. apply valid_item_pos in H as [Hw Hv].
  unfold ratio. apply Qlt_shift_div_l; lra.
Qed.

Lemma partial_value (it : ReliefItem) (c : Q) :
  0 < weight it -> value it * (c / weight it) == ratio it * c.
Proof. intros H. unfold ratio. field. lra. Qed.

Lemma Qmult_le_compat_nonneg (a b k : Q) : a <= b -> 0 <= k -> a * k <= b * k.
Proof. intros. apply Qmult_le_compat_r; assumption. Qed.

(** The greedy value grows by at most [rho] per unit of capacity, when no
    item of the list has a ratio above [rho]. *)
Lemma greedy_lipschitz (rho : Q) (l : list ReliefItem) :
  0 <= rho -> Forall valid_item l -> Forall (fun it => ratio it <= rho) l ->
  forall c c', c <= c' -> greedy c' l <= greedy c l + rho * (c' - c).
Proof.
  intros H0 Hv Hr. induction l as [|it l IH]; intros c c' Hcc.
  - simpl. nra.
  - apply Forall_cons_iff in Hv as [Hit Hv]. apply Forall_cons_iff in Hr as [Hr1 Hr].
    specialize (IH Hv Hr).
    apply valid_item_pos in Hit as [Hw _].
    pose proof (value_ratio it Hw) as Ev.
    cbn [greedy].
    case_Qle c' 0.
    + assert (E1 : Qle_bool c 0 = true) by (apply Qle_bool_iff; lra).
      rewrite E1. nra.
    + case_Qle (weight it) c'.
      * case_Qle c 0.
        -- pose proof (IH c (c' - weight it) ltac:(lra)) as I.
           rewrite (greedy_nonpos c l) in I by assumption.
           nra.
        -- case_Qle (weight it) c.
           ++ pose proof (IH (c - weight it) (c' - weight it) ltac:(lra)) as I.
              nra.
           ++ pose proof (IH 0 (c' - weight it) ltac:(lra)) as I.
              rewrite (greedy_nonpos 0 l) in I by lra.
              rewrite partial_value by assumption.
              nra.
      * rewrite !partial_value by assumption.
        case_Qle c 0.
        -- nra.
        -- case_Qle (weight it) c; [lra|].
           rewrite partial_value by assumption.
           nra.
Qed.

Lemma weighted_sum_nil_l f xs : weighted_sum f [] xs == 0.
Proof. reflexivity. Qed.

Lemma weighted_sum_nil_r f l : weighted_sum f l [] == 0.
Proof. destruct l; reflexivity. Qed.

Lemma weighted_sum_cons f it l x xs :
  weighted_sum f (it :: l) (x :: xs) == x * f it + weighted_sum f l xs.
Proof. unfold weighted_sum. simpl combine. simpl map. apply py_sum_cons. Qed.

(** No assignment gains more than [rho] per unit of weight it uses. *)
Lemma value_le_ratio_weight (rho : Q) (l : list ReliefItem) (xs : list Q) :
  Forall valid_item l -> Forall (fun it => ratio it <= rho) l ->
  Forall (fun x => 0 <= x /\ x <= 1) xs ->
  assignment_value l xs <= rho * assignment_weight l xs.
Proof.
  unfold assignment_value, assignment_weight.
  intros Hv Hr. revert xs. induction l as [|it l IH]; intros xs Hx.
  - rewrite !weighted_sum_nil_l. lra.
  - destruct Hx as [|x xs [Hx0 Hx1] Hx].
    + rewrite !weighted_sum_nil_r. lra.
    + apply Forall_cons_iff in Hv as [Hit Hv].
      apply Forall_cons_iff in Hr as [Hr1 Hr].
      specialize (IH Hv Hr xs Hx).
      apply valid_item_pos in Hit as [Hw _].
      pose proof (value_ratio it Hw) as Ev.
      rewrite !weighted_sum_cons.
      assert (x * value it <= rho * (x * weight it)); [|lra].
      rewrite Ev.
      pose proof (Qmult_le_0_compat (rho - ratio it) (x * weight it)
                    ltac:(lra) ltac:(nra)).
      lra.
Qed.

Lemma assignment_weight_nonneg (l : list ReliefItem) (xs : list Q) :
  Forall valid_item l -> Forall (fun x => 0 <= x /\ x <= 1) xs ->
  0 <= assignment_weight l xs.
Proof.
  unfold assignment_weight.
  intros Hv. revert xs. induction l as [|it l IH]; intros xs Hx.
  - rewrite weighted_sum_nil_l. lra.
  - destruct Hx as [|x xs [Hx0 Hx1] Hx].
    + rewrite weighted_sum_nil_r. lra.
    + apply Forall_cons_iff in Hv as [Hit Hv].
      specialize (IH Hv xs Hx).
      apply valid_item_pos in Hit as [Hw _].
      rewrite weighted_sum_cons. nra.
Qed.

Lemma insert_desc_descending_Q (x : ReliefItem) (l : list ReliefItem) :
  ratio_descending l -> ratio_descending (insert_desc Qle_bool ratio x l).
Proof.
  induction l as [|y l IH]; intros H.
  - simpl. auto.
  - cbn [insert_desc]. destruct H as [Hy Hl].
    case_Qle (ratio y) (ratio x).
    + split; [|split; assumption].
      constructor; [assumption|].
      eapply List.Forall_impl; [|exact Hy]. intros b Hb. simpl in Hb. lra.
    + split; [|apply IH; assumption].
      eapply Permutation_Forall.
      * symmetry. apply insert_desc_perm.
      * constructor; [lra | assumption].
Qed.

Lemma sorted_reverse_descending_Q (l : list ReliefItem) :
  ratio_descending (sorted_reverse Qle_bool ratio l).
Proof.
  induction l as [|x l IH]; [exact I|].
  apply insert_desc_descending_Q. exact IH.
Qed.

Lemma greedy_nonneg (l : list ReliefItem) (c : Q) :
  Forall valid_item l -> 0 <= greedy c l.
Proof.
  intros Hv. revert c. induction Hv as [|it l Hit Hv IH]; intros c.
  - simpl. lra.
  - cbn [greedy]. pose proof (ratio_pos it Hit) as Hr.
    apply valid_item_pos in Hit as [Hw Hvl].
    case_Qle c 0; [lra|].
    case_Qle (weight it) c.
    + specialize (IH (c - weight it)). lra.
    + rewrite partial_value by assumption. nra.
Qed.

(** On a list of descending ratios, no feasible assignment beats the greedy
    value. *)
Lemma greedy_upper_bound (l : list ReliefItem) :
  Forall valid_item l -> ratio_descending l ->
  forall (c : Q) (xs : list Q),
    Forall (fun x => 0 <= x /\ x <= 1) xs ->
    assignment_weight l xs <= c ->
    assignment_value l xs <= greedy c l.
Proof.
  induction l as [|it l IH]; intros Hv Hd c xs Hx Hw.
  - unfold assignment_value. rewrite weighted_sum_nil_l. simpl. lra.
  - destruct Hx as [|x xs [Hx0 Hx1] Hx].
    { unfold assignment_value. rewrite weighted_sum_nil_r.
      apply greedy_nonneg. exact Hv. }
    assert (Hxs : Forall (fun x => 0 <= x /\ x <= 1) (x :: xs))
      by (constructor; auto).
    pose proof (value_le_ratio_weight (ratio it) (it :: l) (x :: xs) Hv) as A.
    destruct Hd as [Hr Hd].
    specialize (A ltac:(constructor; [lra | exact Hr]) Hxs).
    pose proof (assignment_weight_nonneg _ _ Hv Hxs) as Wn.
    apply Forall_cons_iff in Hv as [Hit Hv].
    pose proof (ratio_pos it Hit) as Hrp.
    apply valid_item_pos in Hit as [Hwt Hvl].
    cbn [greedy].
    case_Qle c 0; [nra|].
    case_Qle (weight it) c.
    + unfold assignment_value, assignment_weight in *.
      rewrite weighted_sum_cons in *.
      pose proof (IH Hv Hd (c - x * weight it) xs Hx ltac:(lra)) as I.
      pose proof (greedy_lipschitz (ratio it) l ltac:(lra) Hv Hr
                    (c - weight it) (c - x * weight it) ltac:(nra)) as L.
      pose proof (value_ratio it Hwt) as Ev.
      nra.
    + rewrite partial_value by assumption. nra.
Qed.

(** The fractions the loop takes form a feasible assignment worth the greedy
    value. *)
Lemma greedy_fractions_feasible (l : list ReliefItem) :
  Forall valid_item l ->
  forall c, 0 <= c ->
    feasible c l (greedy_fractions c l) /\
    assignment_value l (greedy_fractions c l) == greedy c l.
Proof.
  unfold feasible, assignment_value, assignment_weight.
  induction 1 as [|it l Hit Hv IH]; intros c Hc.
  - simpl. repeat split; auto.
  - apply valid_item_pos in Hit as [Hw Hvl].
    cbn [greedy greedy_fractions].
    case_Qle c 0; [|case_Qle (weight it) c].
    + destruct (IH c Hc) as ((IL & IB & IW) & IV).
      rewrite (greedy_nonpos c l) in IV by assumption.
      rewrite !weighted_sum_cons. repeat split.
      * simpl. congruence.
      * constructor; [lra | assumption].
      * lra.
      * lra.
    + destruct (IH (c - weight it) ltac:(lra)) as ((IL & IB & IW) & IV).
      rewrite !weighted_sum_cons. repeat split.
      * simpl. congruence.
      * constructor; [lra | assumption].
      * lra.
      * lra.
    + destruct (IH 0 ltac:(lra)) as ((IL & IB & IW) & IV).
      rewrite (greedy_nonpos 0 l) in IV by lra.
      rewrite !weighted_sum_cons.
      assert (Ef : c / weight it * weight it == c) by (field; lra).
      assert (0 <= c / weight it /\ c / weight it <= 1) as [F0 F1].
      { split.
        - apply Qle_shift_div_l; lra.
        - apply Qle_shift_div_r; lra. }
      repeat split.
      * simpl. congruence.
      * constructor; [lra | assumption].
      * lra.
      * rewrite IV. rewrite (Qmult_comm (value it)). lra.
Qed.

(** An assignment on a list can be carried along any permutation of the
    list. *)
Lemma assignment_permute (l l' : list ReliefItem) :
  Permutation l l' ->
  forall xs : list Q, length xs = length l ->
    exists xs' : list Q, length xs' = length l' /\
                Permutation xs xs' /\
                Permutation (combine l xs) (combine l' xs').
Proof.
  induction 1 as [|a l l' _ IH|a b l|l l' l'' _ IH1 _ IH2]; intros xs Hlen.
  - destruct xs; [|discriminate]. exists []. repeat split; constructor.
  - destruct xs as [|x xs]; [discriminate|]. simpl in Hlen.
    destruct (IH xs ltac:(lia)) as (xs' & L & P1 & P2).
    exists (x :: xs'). simpl. repeat split; [lia | |]; constructor; assumption.
  - destruct xs as [|x [|y xs]]; try discriminate. simpl in Hlen.
    exists (y :: x :: xs). simpl. repeat split; [lia | |]; apply perm_swap.
  - destruct (IH1 xs Hlen) as (xs' & L & P1 & P2).
    destruct (IH2 xs' L) as (xs'' & L' & P1' & P2').
    exists xs''. repeat split; [assumption | |]; etransitivity; eassumption.
Qed.

Lemma feasible_permute (c : Q) (l l' : list ReliefItem) (xs : list Q) :
  Permutation l l' -> feasible c l xs ->
  exists xs', feasible c l' xs' /\
              assignment_value l' xs' == assignment_value l xs.
Proof.
  intros P (L & B & W).
  destruct (assignment_permute l l' P xs L) as (xs' & L' & P1 & P2).
  exists xs'. unfold feasible, assignment_weight, assignment_value, weighted_sum in *.
  repeat split.
  - exact L'.
  - eapply Permutation_Forall; eassumption.
  - rewrite <- (py_sum_perm _ _ (Permutation_map _ P2)). exact W.
  - symmetry. apply py_sum_perm, Permutation_map, P2.
Qed.

(** The total value returned by [solve] is the maximum over the
    fractional assignments: no choice of a fraction in [0,1] per item whose
    weights add up to at most the capacity is worth more, and one such
    choice is worth exactly the total value. *)
Lemma solve_optimal (c : Q) (items : list ReliefItem) :
  0 < c -> Forall valid_item items ->
  let r := solve (mkFractionalKnapsack c) items in
  (forall xs : list Q,
     feasible c items xs -> assignment_value items xs <= res_total r) /\
  (exists xs : list Q,
     feasible c items xs /\ assignment_value items xs == res_total r).
Proof.
  intros Hc Hv r. subst r.
  pose proof (sorted_reverse_perm Qle_bool ratio items) as P.
  pose proof (Forall_valid_sorted_Q items Hv) as Hvs.
  split.
  - intros xs F.
    destruct (feasible_permute c _ _ xs (Permutation_sym P) F)
      as (xs' & (L & B & W) & EV).
    rewrite solve_total_greedy, <- EV.
    apply greedy_upper_bound; auto using sorted_reverse_descending_Q.
  - destruct (greedy_fractions_feasible _ Hvs c ltac:(lra)) as (F & EV).
    destruct (feasible_permute c _ _ _ P F) as (xs & F' & EV').
    exists xs. split; [exact F'|]. rewrite solve_total_greedy, EV'. exact EV.
Qed.


Lemma solve_total_le (c c' : Q) (items : list ReliefItem) :
  0 < c -> c <= c' -> Forall valid_item items ->
  res_total (solve (mkFractionalKnapsack c) items)
  <= res_total (solve (mkFractionalKnapsack c') items).
Proof.
  intros Hc Hcc Hv. rewrite !solve_total_greedy.
  pose proof (Forall_valid_sorted_Q items Hv) as Hvs.
  destruct (greedy_fractions_feasible _ Hvs c ltac:(lra)) as ((L & B & W) & EV).
  rewrite <- EV.
  apply greedy_upper_bound; auto using sorted_reverse_descending_Q. lra.
Qed.




(** ** Further facts *)


(** The split of the sorted input, with what validity gives on each part. *)
Lemma solve_split_valid (c : Q) (items : list ReliefItem) :
  0 <= c -> Forall valid_item items ->
  exists full part skipped rem,
    LoopSplit (mkLoopState 0 [] [] c) (sorted_reverse Qle_bool ratio items)
      full part skipped rem /\
    Forall valid_item full /\ Forall valid_item part /\
    Forall valid_item skipped /\
    solve (mkFractionalKnapsack c) items =
      (total_value (run_loop (mkLoopState 0 [] [] c) (sorted_reverse Qle_bool ratio items)),
       map full_alloc full ++ map (partial_alloc rem) part,
       map (partial_unalloc rem) part ++ map skipped_unalloc skipped).
Proof.
  intros Hc Hv.
  destruct (solve_split_Q c items Hc) as (full & part & skipped & rem & S & E).
  exists full, part, skipped, rem.
  apply Forall_valid_sorted_Q in Hv. rewrite (split_list _ _ _ _ _ _ S) in Hv.
  apply Forall_app in Hv as [Hf Hv]. apply Forall_app in Hv as [Hp Hs].
  auto.
Qed.


Lemma sorted_weights (items : list ReliefItem) :
  py_sum (map weight (sorted_reverse Qle_bool ratio items)) == py_sum (map weight items).
Proof. apply py_sum_perm, Permutation_map, sorted_reverse_perm. Qed.

Lemma sorted_values (items : list ReliefItem) :
  py_sum (map value (sorted_reverse Qle_bool ratio items)) == py_sum (map value items).
Proof. apply py_sum_perm, Permutation_map, sorted_reverse_perm. Qed.


Lemma fields_in_range (c : Q) (items : list ReliefItem) :
  0 < c -> Forall valid_item items ->
  let r := solve (mkFractionalKnapsack c) items in
  Forall (fun a => 0 < weight_allocated a /\
                   0 < fraction a /\ fraction a <= 1 /\
                   0 < value_gained a) (res_allocations r) /\
  Forall (fun u => 0 < fraction_unallocated u /\
                   fraction_unallocated u <= 1 /\
                   0 < un_weight u /\ 0 < un_value u) (res_unallocated r).
Proof.
  intros Hc Hv r. subst r.
  destruct (solve_split_valid c items ltac:(lra) Hv)
    as (full & part & skipped & rem & S & Hf & Hp & Hs & E).
  rewrite E. unfold res_unallocated, res_allocations. simpl fst. simpl snd.
  pose proof (split_part_fits _ _ _ _ _ _ S) as Hfit.
  assert (Hfr : Forall (fun it => 0 < weight it /\ 0 < value it /\ 0 < rem /\
                                  0 < rem / weight it /\ rem / weight it < 1)
                       part).
  { rewrite List.Forall_forall in *. intros it Hin.
    destruct (Hfit it Hin) as [H0 H1].
    destruct (proj1 (valid_item_pos it) (Hp it Hin)) as [Hw Hvl].
    repeat split; auto.
    - apply Qlt_shift_div_l; lra.
    - apply Qlt_shift_div_r; lra. }
  split; apply Forall_app; split; apply List.Forall_map.
  - eapply List.Forall_impl; [|exact Hf].
    intros it Hit. apply valid_item_pos in Hit as [Hw Hvl]. simpl. lra.
  - eapply List.Forall_impl; [|exact Hfr].
    intros it (Hw & Hvl & Hrem & F0 & F1). simpl.
    repeat split; try lra. nra.
  - eapply List.Forall_impl; [|exact Hfr].
    intros it (Hw & Hvl & Hrem & F0 & F1). simpl.
    repeat split; try lra; nra.
  - eapply List.Forall_impl; [|exact Hs].
    intros it Hit. apply valid_item_pos in Hit as [Hw Hvl]. simpl. lra.
Qed.

Lemma conserves_value_and_weight (c : Q) (items : list ReliefItem) :
  0 < c -> Forall valid_item items ->
  let r := solve (mkFractionalKnapsack c) items in
  py_sum (map value_gained (res_allocations r))
    + py_sum (map un_value (res_unallocated r))
    == py_sum (map value items) /\
  py_sum (map weight_allocated (res_allocations r))
    + py_sum (map un_weight (res_unallocated r))
    == py_sum (map weight items).
Proof.
  intros Hc Hv r. subst r.
  destruct (solve_split_valid c items ltac:(lra) Hv)
    as (full & part & skipped & rem & S & Hf & Hp & Hs & E).
  rewrite E. unfold res_unallocated, res_allocations. simpl fst. simpl snd.
  rewrite <- sorted_values, <- sorted_weights.
  rewrite (split_list _ _ _ _ _ _ S).
  rewrite !map_app, !py_sum_app, !map_map. simpl.
  change (fun x : ReliefItem => value x) with value.
  change (fun x : ReliefItem => weight x) with weight.
  destruct (length_le1_inv part (split_part_le1 _ _ _ _ _ _ S))
    as [->|[p ->]]; simpl map.
  - rewrite !py_sum_nil. split; lra.
  - apply Forall_inv, valid_item_pos in Hp as [Hw _].
    rewrite !py_sum_cons, !py_sum_nil.
    assert (Ev : value p * (rem / weight p) + value p * (1 - rem / weight p)
                 == value p) by (field; lra).
    assert (Ew : rem + weight p * (1 - rem / weight p) == weight p)
      by (field; lra).
    split; lra.
Qed.

(** The total value does not depend on the order in which the caller lists
    the items. *)
Lemma total_order_independent (c : Q) (items items' : list ReliefItem) :
  0 < c -> Forall valid_item items -> Permutation items items' ->
  res_total (solve (mkFractionalKnapsack c) items)
  == res_total (solve (mkFractionalKnapsack c) items').
Proof.
  intros Hc Hv P.
  assert (Hv' : Forall valid_item items')
    by (eapply Permutation_Forall; eassumption).
  assert (Hle : forall l l', Forall valid_item l -> Forall valid_item l' ->
                  Permutation l l' ->
                  greedy c (sorted_reverse Qle_bool ratio l)
                  <= greedy c (sorted_reverse Qle_bool ratio l')).
  { intros l l' Hl Hl' Pl.
    destruct (greedy_fractions_feasible _ (Forall_valid_sorted_Q l Hl) c
                ltac:(lra)) as (F & EV).
    assert (Ps : Permutation (sorted_reverse Qle_bool ratio l) (sorted_reverse Qle_bool ratio l')).
    { rewrite !sorted_reverse_perm. exact Pl. }
    destruct (feasible_permute c _ _ _ Ps F) as (xs & (L & B & W) & EV').
    rewrite <- EV, <- EV'.
    apply greedy_upper_bound;
      auto using sorted_reverse_descending_Q, Forall_valid_sorted_Q. }
  rewrite !solve_total_greedy.
  apply Qle_antisym; apply Hle; auto. symmetry; exact P.
Qed.

End ExactFacts.

(** * Runs in which no operation rounds *)

Section Values.

Local Open Scope Q_scope.

Lemma F2Q_zero : F2Q 0 == 0.
Proof. vm_compute. reflexivity. Qed.

Lemma F2Q_one : F2Q 1 == 1.
Proof. vm_compute. reflexivity. Qed.

Lemma finite_zero : finite 0 = true.
Proof. reflexivity. Qed.

(** On finite floats the comparisons are those of the values. *)
Lemma leb_F2Q (x y : float) :
  finite x = true -> finite y = true ->
  (x <=? y)%float = Qle_bool (F2Q x) (F2Q y).
Proof.
  intros Fx Fy. rewrite leb_rank by (apply finite_not_nan; assumption).
  unfold Qle_bool, F2Q. cbn [Qnum Qden].
  apply Bool.eq_true_iff_eq. rewrite !Z.leb_le.
  apply Z.mul_le_mono_pos_r. reflexivity.
Qed.

Lemma leb_F2Q_true (x y : float) :
  finite x = true -> finite y = true ->
  (x <=? y)%float = true -> F2Q x <= F2Q y.
Proof.
  intros Fx Fy H. rewrite leb_F2Q in H by assumption.
  apply Qle_bool_iff. exact H.
Qed.

Lemma leb_F2Q_false (x y : float) :
  finite x = true -> finite y = true ->
  (x <=? y)%float = false -> F2Q y < F2Q x.
Proof.
  intros Fx Fy H. rewrite leb_F2Q in H by assumption.
  apply Qnot_le_lt. intros L. apply Qle_bool_iff in L. congruence.
Qed.

Lemma F2Q_leb (x y : float) :
  finite x = true -> finite y = true ->
  F2Q x <= F2Q y -> (x <=? y)%float = true.
Proof.
  intros Fx Fy H. rewrite leb_F2Q by assumption.
  apply Qle_bool_iff. exact H.
Qed.

Lemma F2Q_pos (x : float) :
  finite x = true -> (x <=? 0)%float = false -> 0 < F2Q x.
Proof.
  intros Fx H. apply leb_F2Q_false in H; auto. rewrite F2Q_zero in H. exact H.
Qed.

Lemma exact_add_spec (x y : float) :
  exact_add x y = true ->
  finite (x + y) = true /\ F2Q (x + y) == F2Q x + F2Q y.
Proof.
  unfold exact_add. intros H. apply andb_prop in H as [F E].
  apply Qeq_bool_iff in E. auto.
Qed.

Lemma exact_sub_spec (x y : float) :
  exact_sub x y = true ->
  finite (x - y) = true /\ F2Q (x - y) == F2Q x - F2Q y.
Proof.
  unfold exact_sub. intros H. apply andb_prop in H as [F E].
  apply Qeq_bool_iff in E. auto.
Qed.

Lemma exact_mul_spec (x y : float) :
  exact_mul x y = true ->
  finite (x * y) = true /\ F2Q (x * y) == F2Q x * F2Q y.
Proof.
  unfold exact_mul. intros H. apply andb_prop in H as [F E].
  apply Qeq_bool_iff in E. auto.
Qed.

Lemma exact_div_spec (x y : float) :
  exact_div x y = true ->
  finite (x / y) = true /\ ~ F2Q y == 0 /\ F2Q (x / y) == F2Q x / F2Q y.
Proof.
  unfold exact_div. intros H. apply andb_prop in H as [H E].
  apply andb_prop in H as [F N]. apply Qeq_bool_iff in E.
  split; [exact F|]. split; [|exact E].
  intros Z. apply Qeq_bool_iff in Z. rewrite Z in N. discriminate.
Qed.

Lemma item_exact_spec (it : ReliefItem) :
  item_exact it = true ->
  finite (value it) = true /\ finite (weight it) = true /\
  finite (ratio it) = true /\ ~ F2Q (weight it) == 0 /\
  F2Q (ratio it) == F2Q (value it) / F2Q (weight it).
Proof.
  unfold item_exact. intros H. apply andb_prop in H as [H D].
  apply andb_prop in H as [Fv Fw].
  apply exact_div_spec in D as (Fr & N & E). auto.
Qed.

Lemma partial_exact_spec (rem : float) (it : ReliefItem) :
  partial_exact rem it = true ->
  let f := (rem / weight it)%float in
  (finite f = true /\ ~ F2Q (weight it) == 0 /\
   F2Q f == F2Q rem / F2Q (weight it)) /\
  (finite (value it * f) = true /\
   F2Q (value it * f) == F2Q (value it) * F2Q f) /\
  (finite (1 - f) = true /\ F2Q (1 - f) == 1 - F2Q f) /\
  (finite (weight it * (1 - f)) = true /\
   F2Q (weight it * (1 - f)) == F2Q (weight it) * F2Q (1 - f)) /\
  (finite (value it * (1 - f)) = true /\
   F2Q (value it * (1 - f)) == F2Q (value it) * F2Q (1 - f)).
Proof.
  unfold partial_exact. cbv zeta. intros H.
  apply andb_prop in H as [H M3]. apply andb_prop in H as [H M2].
  apply andb_prop in H as [H S1]. apply andb_prop in H as [D M1].
  apply exact_div_spec in D. apply exact_mul_spec in M1, M2, M3.
  apply exact_sub_spec in S1 as [F1 E1]. rewrite F2Q_one in E1.
  auto 10.
Qed.

(** ** The exact counterpart of the items *)

Lemma exact_item_valid (it : ReliefItem) :
  valid_item it -> finite (value it) = true -> finite (weight it) = true ->
  Exact.valid_item (exact_item it).
Proof.
  intros V Fv Fw. apply valid_item_checks in V as [Hw Hv].
  apply ExactFacts.valid_item_pos. simpl.
  split; apply F2Q_pos; assumption.
Qed.

Lemma exact_item_ratio (it : ReliefItem) :
  item_exact it = true -> F2Q (ratio it) == Exact.ratio (exact_item it).
Proof. intros H. apply item_exact_spec in H as (_ & _ & _ & _ & E). exact E. Qed.

Lemma exact_items_valid (items : list ReliefItem) :
  Forall valid_item items -> forallb item_exact items = true ->
  Forall Exact.valid_item (map exact_item items).
Proof.
  intros V E. apply List.Forall_map. rewrite forallb_forall in E.
  rewrite List.Forall_forall in *. intros it Hin.
  destruct (item_exact_spec it (E it Hin)) as (Fv & Fw & _).
  apply exact_item_valid; auto.
Qed.

End Values.

(** ** The sort orders floats and values alike *)

Lemma insert_desc_map_rel {A B K1 K2} (le1 : K1 -> K1 -> bool)
    (le2 : K2 -> K2 -> bool) (k1 : A -> K1) (k2 : B -> K2) (f : A -> B)
    (x : A) (l : list A) :
  Forall (fun y => le1 (k1 y) (k1 x) = le2 (k2 (f y)) (k2 (f x))) l ->
  map f (insert_desc le1 k1 x l) = insert_desc le2 k2 (f x) (map f l).
Proof.
  induction 1 as [|y l Hy _ IH]; [reflexivity|].
  simpl. rewrite <- Hy. destruct (le1 (k1 y) (k1 x)); simpl; congruence.
Qed.

Lemma sorted_reverse_map_rel {A B K1 K2} (le1 : K1 -> K1 -> bool)
    (le2 : K2 -> K2 -> bool) (k1 : A -> K1) (k2 : B -> K2) (f : A -> B)
    (P : A -> Prop) (l : list A) :
  (forall x y, P x -> P y -> le1 (k1 y) (k1 x) = le2 (k2 (f y)) (k2 (f x))) ->
  Forall P l ->
  map f (sorted_reverse le1 k1 l) = sorted_reverse le2 k2 (map f l).
Proof.
  intros H. induction 1 as [|x l Hx Hl IH]; [reflexivity|].
  cbn [sorted_reverse fold_right map].
  fold (sorted_reverse le1 k1 l). fold (sorted_reverse le2 k2 (map f l)).
  rewrite <- IH. apply insert_desc_map_rel.
  eapply Permutation_Forall; [symmetry; apply sorted_reverse_perm|].
  eapply List.Forall_impl; [|exact Hl]. intros y Hy. cbv beta. auto.
Qed.

Lemma sorted_exact_items (items : list ReliefItem) :
  forallb item_exact items = true ->
  map exact_item (sorted_reverse PrimFloat.leb ratio items)
  = sorted_reverse Qle_bool Exact.ratio (map exact_item items).
Proof.
  intros E.
  apply (sorted_reverse_map_rel _ _ _ _ _ (fun it => item_exact it = true)).
  - intros x y Hx Hy.
    pose proof (exact_item_ratio x Hx) as Ex.
    pose proof (exact_item_ratio y Hy) as Ey.
    apply item_exact_spec in Hx as (_ & _ & Fx & _).
    apply item_exact_spec in Hy as (_ & _ & Fy & _).
    rewrite leb_F2Q by assumption. rewrite Ex, Ey. reflexivity.
  - apply List.Forall_forall. apply forallb_forall. exact E.
Qed.

(** ** The float run follows the exact run *)

Section Simulation.

Local Open Scope Q_scope.

Lemma alloc_rel_full (it : ReliefItem) :
  item_exact it = true ->
  alloc_rel (full_alloc it) (Exact.full_alloc (exact_item it)).
Proof.
  intros H. pose proof (exact_item_ratio it H) as R.
  unfold alloc_rel. simpl.
  split; [reflexivity|]. split; [reflexivity|].
  split; [exact F2Q_one|]. split; [reflexivity | exact R].
Qed.

Lemma unalloc_rel_skipped (it : ReliefItem) :
  item_exact it = true ->
  unalloc_rel (skipped_unalloc it) (Exact.skipped_unalloc (exact_item it)).
Proof.
  intros H. pose proof (exact_item_ratio it H) as R.
  unfold unalloc_rel. simpl.
  split; [reflexivity|]. split; [reflexivity|].
  split; [reflexivity|]. split; [exact R | exact F2Q_one].
Qed.

Lemma alloc_rel_partial (rem : float) (q : Q) (it : ReliefItem) :
  item_exact it = true -> partial_exact rem it = true -> F2Q rem == q ->
  alloc_rel (partial_alloc rem it) (Exact.partial_alloc q (exact_item it)).
Proof.
  intros H P E. pose proof (exact_item_ratio it H) as R.
  apply partial_exact_spec in P as ((_ & N & Ef) & (_ & Ev) & _).
  cbv zeta in *.
  unfold alloc_rel. simpl.
  split; [reflexivity|]. split; [exact E|].
  split; [rewrite Ef, E; reflexivity|].
  split; [rewrite Ev, Ef, E; reflexivity | exact R].
Qed.

Lemma unalloc_rel_partial (rem : float) (q : Q) (it : ReliefItem) :
  item_exact it = true -> partial_exact rem it = true -> F2Q rem == q ->
  unalloc_rel (partial_unalloc rem it) (Exact.partial_unalloc q (exact_item it)).
Proof.
  intros H P E. pose proof (exact_item_ratio it H) as R.
  apply partial_exact_spec
    in P as ((_ & N & Ef) & _ & (_ & E1) & (_ & Ew) & (_ & Ev)).
  cbv zeta in *.
  unfold unalloc_rel. simpl.
  split; [reflexivity|].
  split; [rewrite Ew, E1, Ef, E; reflexivity|].
  split; [rewrite Ev, E1, Ef, E; reflexivity|].
  split; [exact R | rewrite E1, Ef, E; reflexivity].
Qed.

Lemma step_simulation (st : LoopState) (qt : Exact.LoopState)
    (it : ReliefItem) :
  state_rel st qt -> item_exact it = true -> step_exact st it = true ->
  state_rel (loop_body st it) (Exact.loop_body qt (exact_item it)).
Proof.
  intros (Ft & Fr & Et & Er & Ha & Hu) Hi Hs.
  destruct (item_exact_spec it Hi) as (Fv & Fw & _).
  assert (B1 : (remaining_capacity st <=? 0)%float
               = Qle_bool (Exact.remaining_capacity qt) 0).
  { rewrite leb_F2Q by auto using finite_zero. rewrite Er, F2Q_zero.
    reflexivity. }
  assert (B2 : (weight it <=? remaining_capacity st)%float
               = Qle_bool (Exact.weight (exact_item it))
                   (Exact.remaining_capacity qt)).
  { rewrite leb_F2Q by auto. rewrite Er. reflexivity. }
  unfold step_exact in Hs. unfold loop_body, Exact.loop_body.
  rewrite <- B1, <- B2.
  destruct (remaining_capacity st <=? 0)%float.
  - unfold state_rel. simpl.
    repeat (split; [assumption|]).
    apply Forall2_app; [assumption|].
    constructor; [|constructor]. apply (unalloc_rel_skipped it Hi).
  - destruct (weight it <=? remaining_capacity st)%float.
    + apply andb_prop in Hs as [Hsub Hadd].
      apply exact_sub_spec in Hsub as [F1 E1].
      apply exact_add_spec in Hadd as [F2 E2].
      unfold state_rel. simpl.
      split; [assumption|]. split; [assumption|].
      split; [rewrite E2, Et; reflexivity|].
      split; [rewrite E1, Er; reflexivity|].
      split; [|assumption].
      apply Forall2_app; [assumption|].
      constructor; [|constructor]. apply (alloc_rel_full it Hi).
    + apply andb_prop in Hs as [Hp Hadd].
      apply exact_add_spec in Hadd as [F2 E2].
      pose proof (alloc_rel_partial _ _ it Hi Hp Er) as RA.
      pose proof (unalloc_rel_partial _ _ it Hi Hp Er) as RU.
      destruct RA as (RA1 & RA2 & RA3 & RA4 & RA5).
      unfold state_rel. simpl.
      split; [assumption|]. split; [reflexivity|].
      split; [rewrite E2, Et; simpl in RA4; rewrite RA4; reflexivity|].
      split; [exact F2Q_zero|].
      split.
      * apply Forall2_app; [assumption|].
        constructor; [|constructor]. repeat split; assumption.
      * apply Forall2_app; [assumption|].
        constructor; [|constructor]. exact RU.
Qed.

Lemma loop_simulation (l : list ReliefItem) (st : LoopState)
    (qt : Exact.LoopState) :
  state_rel st qt -> Forall (fun it => item_exact it = true) l ->
  loop_exact st l = true ->
  state_rel (run_loop st l) (Exact.run_loop qt (map exact_item l)).
Proof.
  revert st qt. induction l as [|it l IH]; intros st qt R Hi He.
  - exact R.
  - apply Forall_cons_iff in Hi as [Hit Hi]. simpl in He.
    apply andb_prop in He as [Hs He].
    simpl. apply IH; auto. apply step_simulation; assumption.
Qed.

(** In a run that does not round, the floats [solve] returns have the
    values the exact algorithm returns on the values of the inputs. *)
Lemma solve_simulation (c : float) (items : list ReliefItem) :
  exact_run c items = true ->
  result_rel (solve (mkFractionalKnapsack c) items)
    (Exact.solve (Exact.mkFractionalKnapsack (F2Q c)) (map exact_item items)).
Proof.
  unfold exact_run. intros H. apply andb_prop in H as [H HL].
  apply andb_prop in H as [Fc Hi].
  rewrite solve_run_loop, ExactFacts.solve_run_loop_Q. cbv zeta.
  rewrite <- sorted_exact_items by assumption.
  assert (R0 : state_rel (mkLoopState 0 [] [] c)
                 (Exact.mkLoopState 0 [] [] (F2Q c))).
  { unfold state_rel. simpl.
    split; [reflexivity|]. split; [exact Fc|].
    split; [exact F2Q_zero|]. split; [reflexivity|].
    split; constructor. }
  assert (Hs : Forall (fun it => item_exact it = true)
                 (sorted_reverse PrimFloat.leb ratio items)).
  { eapply Permutation_Forall; [symmetry; apply sorted_reverse_perm|].
    apply List.Forall_forall. apply forallb_forall. exact Hi. }
  destruct (loop_simulation _ _ _ R0 Hs HL) as (Ft & _ & Et & _ & Ha & Hu).
  unfold result_rel, res_total, res_allocations, res_unallocated,
    Exact.res_total, Exact.res_allocations, Exact.res_unallocated.
  simpl. auto.
Qed.

Lemma exact_run_spec (c : float) (items : list ReliefItem) :
  exact_run c items = true ->
  finite c = true /\ forallb item_exact items = true.
Proof.
  unfold exact_run. intros H. apply andb_prop in H as [H _].
  apply andb_prop in H. exact H.
Qed.

Lemma Qsum_rel {A B} (R : A -> B -> Prop) (f : A -> float) (g : B -> Q)
    (l : list A) (l' : list B) :
  (forall a b, R a b -> F2Q (f a) == g b) ->
  Forall2 R l l' -> Qsum (map f l) == Exact.py_sum (map g l').
Proof.
  intros H. unfold Qsum. induction 1 as [|a b l l' Hab _ IH].
  - reflexivity.
  - simpl map. rewrite !ExactFacts.py_sum_cons, IH, (H _ _ Hab). reflexivity.
Qed.

Lemma Qsum_map_exact (f : ReliefItem -> float) (g : Exact.ReliefItem -> Q)
    (items : list ReliefItem) :
  (forall it, F2Q (f it) = g (exact_item it)) ->
  Qsum (map f items) = Exact.py_sum (map g (map exact_item items)).
Proof.
  intros H. unfold Qsum. rewrite !map_map. f_equal.
  apply map_ext. exact H.
Qed.



End Simulation.

(** ** Where rounding shows, and what holds without it *)

Section ExactRuns.

Local Open Scope Q_scope.

Lemma ltb_F2Q_iff (x y : float) :
  finite x = true -> finite y = true ->
  (x <? y)%float = true <-> F2Q x < F2Q y.
Proof.
  intros Fx Fy. rewrite ltb_rank by (apply finite_not_nan; assumption).
  rewrite Z.ltb_lt. unfold Qlt, F2Q. cbn [Qnum Qden].
  apply Z.mul_lt_mono_pos_r. reflexivity.
Qed.

Lemma ltb_F2Q (x y : float) :
  finite x = true -> finite y = true ->
  (x <? y)%float = true -> F2Q x < F2Q y.
Proof. intros Fx Fy. apply ltb_F2Q_iff; assumption. Qed.

Lemma F2Q_eqb (x y : float) :
  finite x = true -> finite y = true ->
  F2Q x == F2Q y -> (x =? y)%float = true.
Proof.
  intros Fx Fy H. rewrite eqb_rank by (apply finite_not_nan; assumption).
  apply Z.eqb_eq. unfold Qeq, F2Q in H. cbn [Qnum Qden] in H.
  apply Z.mul_reg_r in H; [exact H | discriminate].
Qed.

Lemma F2Q_capacity_pos (c : float) :
  finite c = true -> (0 <? c)%float = true -> 0 < F2Q c.
Proof.
  intros Fc H. apply (ltb_F2Q 0 c finite_zero Fc) in H.
  rewrite F2Q_zero in H. exact H.
Qed.


End ExactRuns.

(** ** Optimality *)

(** C1, as stated, fails on floats.  The ratios of [item_Y] and [item_X]
    round to the same float while [item_X] has the higher ratio; listed
    after [item_Y], it stays behind it in the sort, and [solve] fills the
    capacity with [item_Y] for a total of 94906273.  Taking [item_X] whole
    and 1/94906272 of [item_Y] has the same weight and a higher value, and
    [solve] itself returns more when [item_X] is listed first. *)
Lemma solve_optimal_counterexample :
  let c := 94906272%float in
  let items := [item_Y; item_X] in
  let r := solve (mkFractionalKnapsack c) items in
  (0 <? c)%float = true /\
  Forall valid_item items /\
  res_total r = 94906273%float /\
  feasible c items [1 # 94906272; 1]%Q /\
  (F2Q (res_total r) < assignment_value items [1 # 94906272; 1])%Q /\
  (res_total r
     <? res_total (solve (mkFractionalKnapsack c) [item_X; item_Y]))%float
  = true.
Proof.
  cbv zeta. split; [reflexivity|]. split; [repeat constructor|].
  split; [reflexivity|]. split; [|split].
  - unfold feasible, Exact.feasible. split; [reflexivity|]. split.
    + repeat constructor; vm_compute; discriminate.
    + vm_compute. discriminate.
  - vm_compute. reflexivity.
  - vm_compute. reflexivity.
Qed.

(** C1, amended.  In a run in which no operation rounds, the total value
    returned by [solve] is the maximum over the fractional assignments: no
    choice of a fraction in [0,1] per item whose weights add up to at most
    the capacity is worth more, and one such choice is worth exactly the
    total value.  Weights and values are added exactly. *)
Theorem solve_optimal_exact_run (c : float) (items : list ReliefItem) :
  (0 <? c)%float = true -> Forall valid_item items ->
  exact_run c items = true ->
  let r := solve (mkFractionalKnapsack c) items in
  (forall xs : list Q,
     feasible c items xs ->
     (assignment_value items xs <= F2Q (res_total r))%Q) /\
  (exists xs : list Q,
     feasible c items xs /\
     (assignment_value items xs == F2Q (res_total r))%Q).
Proof.
  intros Hc Hv He r. subst r.
  destruct (exact_run_spec _ _ He) as [Fc Hi].
  destruct (solve_simulation _ _ He) as (_ & Et & _ & _).
  destruct (ExactFacts.solve_optimal (F2Q c) (map exact_item items)
              (F2Q_capacity_pos c Fc Hc) (exact_items_valid items Hv Hi))
    as [Hmax Hex].
  unfold feasible, assignment_value. split.
  - intros xs F. rewrite Et. apply Hmax. exact F.
  - destruct Hex as (xs & F & E). exists xs. split; [exact F|].
    rewrite Et. exact E.
Qed.

Lemma solve_optimal_exact_run_witness :
  let r := solve (mkFractionalKnapsack 45) [item_A; item_B; item_C] in
  (forall xs : list Q,
     feasible 45 [item_A; item_B; item_C] xs ->
     (assignment_value [item_A; item_B; item_C] xs <= F2Q (res_total r))%Q) /\
  (exists xs : list Q,
     feasible 45 [item_A; item_B; item_C] xs /\
     (assignment_value [item_A; item_B; item_C] xs == F2Q (res_total r))%Q).
Proof.
  apply (solve_optimal_exact_run 45 [item_A; item_B; item_C]).
  - reflexivity.
  - repeat constructor.
  - vm_compute. reflexivity.
Defined.

(** ** Allocated weight *)




(** The run of the two witnesses: no operation rounds, and neither do the
    sums of the allocated weights and of the input weights. *)
Example exact_run_example :
  let r := solve (mkFractionalKnapsack 45) [item_A; item_B; item_C] in
  exact_run 45 [item_A; item_B; item_C] = true /\
  sum_exact (map weight_allocated (res_allocations r)) = true /\
  sum_exact (map weight [item_A; item_B; item_C]) = true /\
  res_total r = 220%float /\
  py_sum (map weight_allocated (res_allocations r)) = 45%float.
Proof. cbv zeta. repeat split; vm_compute; reflexivity. Qed.

(** The run of [run_test_cases] with capacity 50 takes two thirds of
    [item_C]: the fraction rounds. *)
Example test_run_rounds : exact_run 50 [item_A; item_B; item_C] = false.
Proof. vm_compute. reflexivity. Qed.

(** ** The three cases of an item *)




(** The split of that run: A and B whole, half of C, with 15 left for it. *)
Example partition_example :
  let r := solve (mkFractionalKnapsack 45) [item_A; item_B; item_C] in
  res_allocations r
    = map full_alloc [item_A; item_B] ++ map (partial_alloc 15) [item_C] /\
  res_unallocated r = map (partial_unalloc 15) [item_C] /\
  fraction (partial_alloc 15 item_C) = 0.5%float /\
  fraction_unallocated (partial_unalloc 15 item_C) = 0.5%float /\
  un_weight (partial_unalloc 15 item_C) = 15%float.
Proof. cbv zeta. repeat split; vm_compute; reflexivity. Qed.

(** ** The fields of an allocation *)




(** ** Capacity and total value *)

(** X17. Between two runs on the same items in which no operation rounds,
    the run with the larger capacity returns at least the total value of the
    other. *)
Theorem exact_runs_total_monotone (c c' : float) (items : list ReliefItem) :
  (0 <? c)%float = true -> (c <=? c')%float = true ->
  Forall valid_item items ->
  exact_run c items = true -> exact_run c' items = true ->
  (res_total (solve (mkFractionalKnapsack c) items)
     <=? res_total (solve (mkFractionalKnapsack c') items))%float = true.
Proof.
  intros Hc Hcc Hv He He'.
  destruct (exact_run_spec _ _ He) as [Fc Hi].
  destruct (exact_run_spec _ _ He') as [Fc' _].
  destruct (solve_simulation _ _ He) as (Ft & Et & _).
  destruct (solve_simulation _ _ He') as (Ft' & Et' & _).
  apply F2Q_leb; auto. rewrite Et, Et'.
  apply ExactFacts.solve_total_le.
  - apply F2Q_capacity_pos; assumption.
  - apply leb_F2Q_true; assumption.
  - apply exact_items_valid; assumption.
Qed.

Lemma exact_runs_total_monotone_witness :
  (res_total (solve (mkFractionalKnapsack 45) [item_A; item_B; item_C])
     <=? res_total (solve (mkFractionalKnapsack 60) [item_A; item_B; item_C]))
    %float = true.
Proof.
  apply (exact_runs_total_monotone 45 60 [item_A; item_B; item_C]).
  - reflexivity.
  - reflexivity.
  - repeat constructor.
  - vm_compute. reflexivity.
  - vm_compute. reflexivity.
Defined.

(** ** More of exact arithmetic, on runs that do not round *)


Lemma Forall2_Forall_l {A B} (R : A -> B -> Prop) (P : A -> Prop)
    (Q : B -> Prop) (l : list A) (l' : list B) :
  (forall a b, R a b -> Q b -> P a) ->
  Forall2 R l l' -> Forall Q l' -> Forall P l.
Proof.
  intros H. induction 1 as [|a b l l' Hab _ IH]; intros HQ; [constructor|].
  apply Forall_cons_iff in HQ as [Hb HQ]. constructor; eauto.
Qed.




(** The items of the test "all items fit": the run does not round and
    nothing is left. *)
Example all_items_fit_example :
  exact_run 50 [item_A; item_B] = true /\
  res_unallocated (solve (mkFractionalKnapsack 50) [item_A; item_B]) = [].
Proof. split; vm_compute; reflexivity. Qed.

(** With capacity 0.6 and weights 0.1, 0.2 and 0.3, everything is taken
    whole although the weights add up to more than the capacity, as floats
    and exactly: the subtractions round. *)
Example all_taken_over_capacity :
  let items := [mkReliefItem "a" 3 0.1; mkReliefItem "b" 2 0.2;
                mkReliefItem "c" 1 0.3] in
  res_unallocated (solve (mkFractionalKnapsack 0.6) items) = [] /\
  (0.6 <? py_sum (map weight items)) = true /\
  (F2Q 0.6 < Qsum (map weight items))%Q /\
  exact_run 0.6 items = false.
Proof. cbv zeta. repeat split; vm_compute; reflexivity. Qed.

(** X4. In a run in which no operation rounds, every record returned by
    [solve] has the values of its numbers in range: an allocation has a
    positive weight, a fraction in (0,1] and a positive value gained; an
    unallocated entry has an unallocated fraction in (0,1] and a positive
    weight and value. *)
Theorem solve_fields_in_range (c : float) (items : list ReliefItem) :
  (0 <? c) = true -> Forall valid_item items -> exact_run c items = true ->
  let r := solve (mkFractionalKnapsack c) items in
  Forall (fun a => (0 < F2Q (weight_allocated a) /\
                    0 < F2Q (fraction a) /\ F2Q (fraction a) <= 1 /\
                    0 < F2Q (value_gained a))%Q) (res_allocations r) /\
  Forall (fun u => (0 < F2Q (fraction_unallocated u) /\
                    F2Q (fraction_unallocated u) <= 1 /\
                    0 < F2Q (un_weight u) /\ 0 < F2Q (un_value u))%Q)
         (res_unallocated r).
Proof.
  intros Hc Hv He r. subst r.
  destruct (exact_run_spec _ _ He) as [Fc Hi].
  destruct (solve_simulation _ _ He) as (_ & _ & Ha & Hu).
  destruct (ExactFacts.fields_in_range (F2Q c) (map exact_item items)
              (F2Q_capacity_pos c Fc Hc) (exact_items_valid items Hv Hi))
    as [HA HU].
  split.
  - eapply Forall2_Forall_l; [|exact Ha|exact HA].
    intros a b (_ & E1 & E2 & E3 & _) H. cbv beta in *.
    rewrite E1, E2, E3. exact H.
  - eapply Forall2_Forall_l; [|exact Hu|exact HU].
    intros u v (_ & E1 & E2 & _ & E3) H. cbv beta in *.
    rewrite E1, E2, E3. exact H.
Qed.

Lemma solve_fields_in_range_witness :
  let r := solve (mkFractionalKnapsack 45) [item_A; item_B; item_C] in
  Forall (fun a => (0 < F2Q (weight_allocated a) /\
                    0 < F2Q (fraction a) /\ F2Q (fraction a) <= 1 /\
                    0 < F2Q (value_gained a))%Q) (res_allocations r) /\
  Forall (fun u => (0 < F2Q (fraction_unallocated u) /\
                    F2Q (fraction_unallocated u) <= 1 /\
                    0 < F2Q (un_weight u) /\ 0 < F2Q (un_value u))%Q)
         (res_unallocated r).
Proof.
  apply (solve_fields_in_range 45 [item_A; item_B; item_C]).
  - reflexivity.
  - repeat constructor.
  - vm_compute. reflexivity.
Defined.

(** With capacity 1e-300 and an item of weight 1e300, the fraction taken and
    the value gained underflow to 0. *)
Example fraction_underflows :
  let r := solve (mkFractionalKnapsack 1e-300) [mkReliefItem "big" 1 1e300] in
  map fraction (res_allocations r) = [0] /\
  map value_gained (res_allocations r) = [0].
Proof. cbv zeta. split; vm_compute; reflexivity. Qed.

(** X5. In a run in which no operation rounds, nothing is lost between the
    two output lists: the values gained and the unallocated values add up to
    the total value of the input items, and the allocated and unallocated
    weights add up to their total weight (all sums exact). *)
Theorem solve_conserves_value_and_weight (c : float)
    (items : list ReliefItem) :
  (0 <? c) = true -> Forall valid_item items -> exact_run c items = true ->
  let r := solve (mkFractionalKnapsack c) items in
  (Qsum (map value_gained (res_allocations r))
     + Qsum (map un_value (res_unallocated r))
   == Qsum (map value items))%Q /\
  (Qsum (map weight_allocated (res_allocations r))
     + Qsum (map un_weight (res_unallocated r))
   == Qsum (map weight items))%Q.
Proof.
  intros Hc Hv He r. subst r.
  destruct (exact_run_spec _ _ He) as [Fc Hi].
  destruct (solve_simulation _ _ He) as (_ & _ & Ha & Hu).
  destruct (ExactFacts.conserves_value_and_weight (F2Q c) (map exact_item items)
              (F2Q_capacity_pos c Fc Hc) (exact_items_valid items Hv Hi))
    as [HV HW].
  rewrite (Qsum_map_exact value Exact.value items) by reflexivity.
  rewrite (Qsum_map_exact weight Exact.weight items) by reflexivity.
  rewrite <- HV, <- HW.
  rewrite (Qsum_rel alloc_rel value_gained Exact.value_gained _ _
             ltac:(intros a b (_ & _ & _ & E & _); exact E) Ha).
  rewrite (Qsum_rel alloc_rel weight_allocated Exact.weight_allocated _ _
             ltac:(intros a b (_ & E & _); exact E) Ha).
  rewrite (Qsum_rel unalloc_rel un_value Exact.un_value _ _
             ltac:(intros a b (_ & _ & E & _); exact E) Hu).
  rewrite (Qsum_rel unalloc_rel un_weight Exact.un_weight _ _
             ltac:(intros a b (_ & E & _); exact E) Hu).
  split; reflexivity.
Qed.

Lemma solve_conserves_value_and_weight_witness :
  let r := solve (mkFractionalKnapsack 45) [item_A; item_B; item_C] in
  (Qsum (map value_gained (res_allocations r))
     + Qsum (map un_value (res_unallocated r))
   == Qsum (map value [item_A; item_B; item_C]))%Q /\
  (Qsum (map weight_allocated (res_allocations r))
     + Qsum (map un_weight (res_unallocated r))
   == Qsum (map weight [item_A; item_B; item_C]))%Q.
Proof.
  apply (solve_conserves_value_and_weight 45 [item_A; item_B; item_C]).
  - reflexivity.
  - repeat constructor.
  - vm_compute. reflexivity.
Defined.

(** X7. Between two orders of the same items on which no operation of the
    run rounds, the total value is the same.  (When ratios round, it need
    not be: see the items [item_X] and [item_Y] above.) *)
Theorem solve_total_order_independent (c : float)
    (items items' : list ReliefItem) :
  (0 <? c) = true -> Forall valid_item items -> Permutation items items' ->
  exact_run c items = true -> exact_run c items' = true ->
  (res_total (solve (mkFractionalKnapsack c) items)
     =? res_total (solve (mkFractionalKnapsack c) items')) = true.
Proof.
  intros Hc Hv P He He'.
  destruct (exact_run_spec _ _ He) as [Fc Hi].
  destruct (solve_simulation _ _ He) as (Ft & Et & _).
  destruct (solve_simulation _ _ He') as (Ft' & Et' & _).
  apply F2Q_eqb; auto. rewrite Et, Et'.
  apply ExactFacts.total_order_independent.
  - apply F2Q_capacity_pos; assumption.
  - apply exact_items_valid; assumption.
  - apply Permutation_map. exact P.
Qed.

Lemma solve_total_order_independent_witness :
  (res_total (solve (mkFractionalKnapsack 45) [item_A; item_B; item_C])
     =? res_total (solve (mkFractionalKnapsack 45) [item_C; item_A; item_B]))
  = true.
Proof.
  apply (solve_total_order_independent 45).
  - reflexivity.
  - repeat constructor.
  - apply (Permutation_app_comm [item_A; item_B] [item_C]).
  - vm_compute. reflexivity.
  - vm_compute. reflexivity.
Defined.

(** * Reading the input *)

Section ValidateInputFacts.

Context {N : Type} (le lt : N -> N -> bool) (str_of : N -> string).

Lemma validate_input_ok (value : string)
    (value_type : string -> PyError + N) (min_val : N) (max_val : option N)
    (field_name : string) (val : N) :
  validate_input le lt str_of value value_type min_val max_val field_name
    = inr val ->
  value_type value = inr val /\ le val min_val = false /\
  match max_val with Some m => lt m val = false | None => True end.
Proof.
  unfold validate_input, validate_input_try.
  destruct (value_type value) as [[msg]|v]; [discriminate|].
  destruct (le v min_val) eqn:E1; [discriminate|].
  destruct max_val as [m|].
  - destruct (lt m v) eqn:E2; [discriminate|].
    intros H. assert (val = v) by congruence. subst. auto.
  - intros H. assert (val = v) by congruence. subst. auto.
Qed.

(** X12. [validate_input] returns a value exactly when the conversion
    yields it, [val <= min_val] is false and, when there is a [max_val],
    [val > max_val] is false.  It fails in exactly three ways, each a
    [ValueError] whose message is "Invalid", the field name, a colon and the
    cause: the message of the conversion that failed; that the field must be
    greater than [min_val], when [val <= min_val]; that the field must be at
    most [max_val], when [val > max_val].  The two tests are those of the
    source, so a value on which both comparisons are false, such as NaN,
    is returned. *)
Theorem validate_input_contract (value : string)
    (value_type : string -> PyError + N) (min_val : N) (max_val : option N)
    (field_name : string) :
  let invalid cause :=
    ValueError (String.append "Invalid "
      (String.append field_name (String.append ": " cause))) in
  (forall val,
     validate_input le lt str_of value value_type min_val max_val field_name
       = inr val
     <-> value_type value = inr val /\ le val min_val = false /\
         match max_val with Some m => lt m val = false | None => True end) /\
  (forall e,
     validate_input le lt str_of value value_type min_val max_val field_name
       = inl e
     <-> (exists msg,
            value_type value = inl (ValueError msg) /\ e = invalid msg)
         \/ (exists val,
               value_type value = inr val /\ le val min_val = true /\
               e = invalid (String.append field_name
                     (String.append " must be greater than " (str_of min_val))))
         \/ (exists val m,
               value_type value = inr val /\ le val min_val = false /\
               max_val = Some m /\ lt m val = true /\
               e = invalid (String.append field_name
                     (String.append " must be at most " (str_of m))))).
Proof.
  cbv zeta. unfold validate_input, validate_input_try.
  destruct (value_type value) as [[msg]|v].
  - split.
    + intros val. split; [discriminate | intros [H _]; discriminate].
    + intros e. split.
      * intros H. left. exists msg. split; congruence.
      * intros [(m & H & ->) | [(v & H & _) | (v & m & H & _)]];
          try discriminate.
        congruence.
  - destruct (le v min_val) eqn:E1.
    + split.
      * intros val. split; [discriminate|].
        intros (H & L & _). congruence.
      * intros e. split.
        -- intros H. right. left. exists v. repeat split; congruence.
        -- intros [(m & H & _) | [(v' & H & _ & ->) | (v' & m & H & L & _)]];
             try discriminate; [reflexivity|].
           congruence.
    + destruct max_val as [m|].
      * destruct (lt m v) eqn:E2.
        -- split.
           ++ intros val. split; [discriminate|].
              intros (H & _ & L). congruence.
           ++ intros e. split.
              ** intros H. right. right. exists v, m.
                 repeat split; congruence.
              ** intros [(m' & H & _) | [(v' & H & L & _)
                         | (v' & m' & H & _ & M & _ & ->)]];
                   try discriminate; [congruence|].
                 congruence.
        -- split.
           ++ intros val. split.
              ** intros H. assert (val = v) by congruence. subst. auto.
              ** intros (H & _). congruence.
           ++ intros e. split; [discriminate|].
              intros [(m' & H & _) | [(v' & H & L & _)
                      | (v' & m' & H & _ & M & L & _)]];
                try discriminate; congruence.
      * split.
        -- intros val. split.
           ++ intros H. assert (val = v) by congruence. subst. auto.
           ++ intros (H & _). congruence.
        -- intros e. split; [discriminate|].
           intros [(m' & H & _) | [(v' & H & L & _)
                   | (v' & m' & H & _ & M & _)]];
             try discriminate; congruence.
Qed.

End ValidateInputFacts.

(** The calls of [get_user_input], on texts that pass and that fail. *)
Example validate_input_score_ok :
  validate_input PrimFloat.leb PrimFloat.ltb float_str "100" digits_float
    0 (Some 100) "Urgency score" = inr 100.
Proof. reflexivity. Qed.

Example validate_input_score_too_high :
  validate_input PrimFloat.leb PrimFloat.ltb float_str "101" digits_float
    0 (Some 100) "Urgency score"
  = inl (ValueError "Invalid Urgency score: Urgency score must be at most 100").
Proof. reflexivity. Qed.

Example validate_input_weight_zero :
  validate_input PrimFloat.leb PrimFloat.ltb float_str "0" digits_float
    0 None "Weight"
  = inl (ValueError "Invalid Weight: Weight must be greater than 0").
Proof. reflexivity. Qed.

Example validate_input_count_empty :
  validate_input Z.leb Z.ltb digits_str EmptyString digits_int 0%Z None
    "Number of items"
  = inl (ValueError "Invalid Number of items: invalid literal: empty").
Proof. reflexivity. Qed.

(** NaN is neither [<= 0] nor [> 100]: it passes both tests. *)
Example validate_input_nan :
  validate_input PrimFloat.leb PrimFloat.ltb float_str "nan" digits_float
    0 (Some 100) "Urgency score" = inr nan.
Proof. reflexivity. Qed.

Example demo_get_user_input :
  get_user_input digits_float digits_int float_str digits_str
    (fun s => s) (fun s => s) demo_console
  = (Ok ([mkReliefItem "A" 60 10; mkReliefItem "B" 100 20], 50),
     mkConsole ["left over"%string]
       [OutBanner; OutPrompt PromptCapacity; OutPrompt PromptCount;
        OutItemHeader 0; OutPrompt PromptName; OutPrompt PromptValue;
        OutPrompt PromptWeight;
        OutItemHeader 1; OutPrompt PromptName; OutPrompt PromptValue;
        OutPrompt PromptWeight]).
Proof. vm_compute. reflexivity. Qed.

Example demo_get_user_input_bad :
  get_user_input digits_float digits_int float_str digits_str
    (fun s => s) (fun s => s) demo_console_bad
  = (SystemExit 1,
     mkConsole []
       [OutBanner; OutPrompt PromptCapacity; OutPrompt PromptCount;
        OutItemHeader 0; OutPrompt PromptName; OutPrompt PromptValue;
        OutPrompt PromptWeight;
        OutError (ValueError "Invalid Weight: Weight must be greater than 0")]).
Proof. vm_compute. reflexivity. Qed.

(** With "nan" typed for every number, [get_user_input] returns a NaN
    capacity and an item whose value and weight are NaN. *)
Example demo_get_user_input_nan :
  fst (get_user_input digits_float digits_int float_str digits_str
         (fun s => s) (fun s => s) demo_console_nan)
  = Ok ([mkReliefItem "A" nan nan], nan).
Proof. vm_compute. reflexivity. Qed.

(** ** Inversion of the console operations *)

Lemma io_bind_ok {A B} (m : IO A) (f : A -> IO B) k b k' :
  io_bind m f k = (Ok b, k') ->
  exists a k1, m k = (Ok a, k1) /\ f a k1 = (Ok b, k').
Proof.
  unfold io_bind. destruct (m k) as [[a| | |] k1]; try discriminate.
  intros H. eauto.
Qed.

Lemma io_ret_ok {A} (a b : A) k k' :
  io_ret a k = (Ok b, k') -> b = a /\ k' = k.
Proof. unfold io_ret. intros H. split; congruence. Qed.

Lemma print_ok (o : Output) k u k' :
  print o k = (Ok u, k') -> stdin k' = stdin k.
Proof. unfold print. intros H. injection H as _ <-. reflexivity. Qed.

Lemma input_ok (p : Prompt) k line k' :
  input p k = (Ok line, k') -> stdin k = line :: stdin k'.
Proof.
  unfold input. destruct (stdin k) as [|l rest]; [discriminate|].
  intros H. injection H as <- <-. reflexivity.
Qed.

Lemma lift_ok {A} (r : PyError + A) k a k' :
  lift r k = (Ok a, k') -> r = inr a /\ k' = k.
Proof.
  unfold lift. destruct r; [discriminate|]. intros H.
  split; congruence.
Qed.

Lemma try_except_ok {A} (body : IO A) (handler : PyError -> IO A) k a k' :
  try_except body handler k = (Ok a, k') ->
  body k = (Ok a, k') \/
  exists e k1, body k = (Raise e, k1) /\ handler e k1 = (Ok a, k').
Proof.
  unfold try_except. destruct (body k) as [[b|e| |] k1]; eauto.
Qed.








Section GetUserInputFacts.

Context (py_float : string -> PyError + float) (py_int : string -> PyError + Z)
        (str_of : float -> string) (str_of_int : Z -> string)
        (strip lower : string -> string).

(** What one round adds to the list, and what it reads. *)
Lemma read_item_ok (i : nat) (items items' : list ReliefItem) k k' :
  read_item py_float str_of strip lower i items k = (Ok items', k') ->
  exists item,
    items' = items ++ [item] /\
    valid_item item /\ (100 <? value item) = false /\
    name item <> EmptyString /\
    length (stdin k) = (length (stdin k') + 3)%nat.
Proof.
  unfold read_item. intros H.
  apply io_bind_ok in H as (u0 & k0 & P0 & H).
  apply io_bind_ok in H as (name_input & k1 & I1 & H).
  apply io_bind_ok in H as (u1 & k2 & C1 & H).
  apply io_bind_ok in H as (u2 & k3 & C2 & H).
  apply io_bind_ok in H as (value_input & k4 & I2 & H).
  apply io_bind_ok in H as (v & k5 & V & H).
  apply io_bind_ok in H as (weight_input & k6 & I3 & H).
  apply io_bind_ok in H as (w & k7 & W & H).
  apply io_bind_ok in H as (item & k8 & C & H).
  apply print_ok in P0. apply input_ok in I1, I2, I3.
  apply lift_ok in V as [V ->], W as [W ->], C as [C ->].
  apply io_ret_ok in H as [-> ->].
  destruct (String.eqb (strip name_input) EmptyString) eqn:En.
  { apply lift_ok in C1 as [? _]. discriminate. }
  apply io_ret_ok in C1 as [_ ->].
  assert (stdin k3 = stdin k1) as Ek3.
  { destruct (existsb _ items).
    - eapply print_ok; eassumption.
    - apply io_ret_ok in C2 as [_ ->]. reflexivity. }
  apply validate_input_ok in V as (_ & V0 & V1).
  apply validate_input_ok in W as (_ & W0 & _).
  assert (item = mkReliefItem (strip name_input) v w) as ->.
  { unfold ReliefItem_init in C. rewrite W0, V0 in C. congruence. }
  exists (mkReliefItem (strip name_input) v w).
  split; [reflexivity|]. split; [|split; [exact V1|split]].
  - apply valid_item_checks. simpl. split; assumption.
  - simpl. intros E. rewrite E in En. discriminate.
  - rewrite <- P0, I1, <- Ek3, I2, I3. simpl. lia.
Qed.



Lemma read_items_from_ok (n i : nat) (items items' : list ReliefItem) k k' :
  read_items_from py_float str_of strip lower n i items k = (Ok items', k') ->
  exists new,
    items' = items ++ new /\ length new = n /\
    Forall (fun item => valid_item item /\ (100 <? value item) = false /\
                        name item <> EmptyString) new /\
    length (stdin k) = (length (stdin k') + 3 * n)%nat.
Proof.
  revert i items k. induction n as [|n IH]; intros i items k H; simpl in H.
  - apply io_ret_ok in H as [-> ->]. exists [].
    rewrite app_nil_r. repeat split; auto; lia.
  - apply io_bind_ok in H as (items1 & k1 & R & H).
    apply read_item_ok in R as (item & -> & Hv & H100 & Hn & L1).
    apply IH in H as (new & -> & Ln & F & L2).
    exists (item :: new). rewrite <- app_assoc. simpl.
    repeat split; auto; lia.
Qed.

(** What [get_user_input] has read and checked when it returns. *)
Lemma get_user_input_ok (items : list ReliefItem) (capacity : float) k k' :
  get_user_input py_float py_int str_of str_of_int strip lower k
    = (Ok (items, capacity), k') ->
  (capacity <=? 0) = false /\ items <> [] /\
  Forall (fun item => valid_item item /\ (100 <? value item) = false /\
                      name item <> EmptyString) items /\
  length (stdin k) =
    (length (stdin k') + 2 + 3 * length items
     + (if (100 <? length items)%nat then 1 else 0))%nat.
Proof.
  unfold get_user_input. intros H.
  apply io_bind_ok in H as (u0 & k0 & P0 & H). apply print_ok in P0.
  apply try_except_ok in H as [H | (e & k1 & _ & H)].
  2: { apply io_bind_ok in H as (? & ? & _ & H). discriminate. }
  apply io_bind_ok in H as (capacity_input & k1 & I1 & H).
  apply io_bind_ok in H as (cap & k2 & V1 & H).
  apply io_bind_ok in H as (num_input & k3 & I2 & H).
  apply io_bind_ok in H as (num_items & k4 & V2 & H).
  apply io_bind_ok in H as (u1 & k5 & C & H).
  apply io_bind_ok in H as (its & k6 & R & H).
  apply io_ret_ok in H as [E ->]. injection E as -> ->.
  apply input_ok in I1, I2.
  apply lift_ok in V1 as [V1 ->], V2 as [V2 ->].
  apply validate_input_ok in V1 as (_ & V1 & _).
  apply validate_input_ok in V2 as (_ & V2 & _).
  assert (Hnum : (0 < num_items)%Z) by (apply Z.leb_gt; exact V2).
  apply read_items_from_ok in R as (new & -> & Ln & F & L).
  simpl in *.
  assert (Hc : length (stdin k3) =
               (length (stdin k5)
                + (if (100 <? length new)%nat then 1 else 0))%nat).
  { rewrite Ln.
    destruct (100 <? num_items)%Z eqn:E100.
    - apply Z.ltb_lt in E100.
      assert ((100 <? Z.to_nat num_items)%nat = true) as ->
        by (apply Nat.ltb_lt; lia).
      apply io_bind_ok in C as (confirm & k4 & I3 & C).
      apply input_ok in I3.
      destruct (negb _).
      + apply io_bind_ok in C as (? & ? & _ & C). discriminate.
      + apply io_ret_ok in C as [_ ->]. rewrite I3. simpl. lia.
    - apply Z.ltb_ge in E100.
      assert ((100 <? Z.to_nat num_items)%nat = false) as ->
        by (apply Nat.ltb_ge; lia).
      apply io_ret_ok in C as [_ ->]. lia. }
  split; [exact V1|]. split; [|split; [exact F|]].
  - destruct new; [simpl in Ln; lia | discriminate].
  - rewrite <- P0, I1, I2. simpl. lia.
Qed.

(** X13. Whatever is typed, when [get_user_input] returns, the capacity has
    passed the test of [validate_input] ([capacity <= 0] is false), so the
    script's next step, constructing the solver, raises no error; there is
    at least one item, and every item has passed the constructor's checks
    and has a non-empty name and a value on which [value > 100] is false.
    The tests are those of the source: they do not exclude NaN. *)
Theorem get_user_input_returns_valid (items : list ReliefItem)
    (capacity : float) k k' :
  get_user_input py_float py_int str_of str_of_int strip lower k
    = (Ok (items, capacity), k') ->
  (capacity <=? 0) = false /\
  FractionalKnapsack_init capacity = inr (mkFractionalKnapsack capacity) /\
  items <> [] /\
  Forall (fun item => valid_item item /\ (100 <? value item) = false /\
                      name item <> EmptyString) items.
Proof.
  intros H. apply get_user_input_ok in H as (Hc & Hne & F & _).
  split; [exact Hc|]. split; [|split; assumption].
  unfold FractionalKnapsack_init. rewrite Hc. reflexivity.
Qed.

(** X14. When [get_user_input] returns, it has read exactly two lines,
    three more per item returned, and one more (the confirmation) when there
    are more than 100 items. *)
Theorem get_user_input_lines_read (items : list ReliefItem) (capacity : float)
    k k' :
  get_user_input py_float py_int str_of str_of_int strip lower k
    = (Ok (items, capacity), k') ->
  length (stdin k) =
    (length (stdin k') + 2 + 3 * length items
     + (if (100 <? length items)%nat then 1 else 0))%nat.
Proof. intros H. apply get_user_input_ok in H as (_ & _ & _ & L). exact L. Qed.


End GetUserInputFacts.

Lemma get_user_input_returns_valid_witness :
  (50 <=? 0) = false /\
  FractionalKnapsack_init 50 = inr (mkFractionalKnapsack 50) /\
  [mkReliefItem "A" 60 10; mkReliefItem "B" 100 20] <> [] /\
  Forall (fun item => valid_item item /\ (100 <? value item) = false /\
                      name item <> EmptyString)
         [mkReliefItem "A" 60 10; mkReliefItem "B" 100 20].
Proof.
  apply (get_user_input_returns_valid digits_float digits_int float_str
           digits_str (fun s => s) (fun s => s) _ _ demo_console
           (mkConsole ["left over"%string]
              [OutBanner; OutPrompt PromptCapacity; OutPrompt PromptCount;
               OutItemHeader 0; OutPrompt PromptName; OutPrompt PromptValue;
               OutPrompt PromptWeight;
               OutItemHeader 1; OutPrompt PromptName; OutPrompt PromptValue;
               OutPrompt PromptWeight])).
  vm_compute. reflexivity.
Defined.

Lemma get_user_input_lines_read_witness :
  length (stdin demo_console) =
    (length ["left over"%string] + 2
     + 3 * length [mkReliefItem "A" 60 10; mkReliefItem "B" 100 20]
     + (if (100 <? length [mkReliefItem "A" 60 10; mkReliefItem "B" 100 20])%nat
        then 1 else 0))%nat.
Proof.
  apply (get_user_input_lines_read digits_float digits_int float_str
           digits_str (fun s => s) (fun s => s) _ 50 demo_console
           (mkConsole ["left over"%string]
              [OutBanner; OutPrompt PromptCapacity; OutPrompt PromptCount;
               OutItemHeader 0; OutPrompt PromptName; OutPrompt PromptValue;
               OutPrompt PromptWeight;
               OutItemHeader 1; OutPrompt PromptName; OutPrompt PromptValue;
               OutPrompt PromptWeight])).
  vm_compute. reflexivity.
Defined.
